(** * Lexical node extensions over the editor core

    A shallow embedding of the node classes of this repository
    (HashtagNode, MentionNode, HorizontalRuleNode with its React component,
    OverflowNode, and the test nodes of the unit-test utilities) together
    with the part of the editor core they call into.

    Conventions.
    - A TypeScript source file is a [Module]; a static or instance method
      keeps its name, an instance method takes the receiver [this] as an
      argument.  The source's [$f] is written [f] (Rocq identifiers hold no
      dollar sign), [new C(...)] is [C.new].
    - Code that runs inside [editor.update] is a computation in the monad
      [M]: it reads and writes the transaction's working context and either
      returns or throws.  A throw keeps the writes made before it, as in
      JavaScript; discarding them is the update engine's job.
    - The base classes (LexicalNode, TextNode, ElementNode, DecoratorNode),
      [$applyNodeReplacement], the command registry and the update engine
      are imported by the sources from the [lexical] package and are not
      among them.  Each such definition says so in its comment and follows
      the specification's description of the core. *)

From Stdlib Require Import ZArith Lia.
From stdpp Require Import base strings pretty list gmap fin_maps sorting.

Local Open Scope string_scope.
Local Open Scope Z_scope.

(** ** Data model *)

Abbreviation NodeKey := string.

(** Modelled from the spec: the mode of a text node, its boundary policy
    (normal, token or segmented). *)
Inductive TextMode := normal | token | segmented.

#[global] Instance TextMode_eq_dec : EqDecision TextMode.
Proof. solve_decision. Defined.

(** Modelled from the spec: the bit of the detail flags that marks a text
    node as directionless. *)
Definition IS_DIRECTIONLESS : Z := 1.

(** Modelled from the spec: the fields a TextNode instance carries
    besides key and parent: string content, formatting flags, mode, and
    the detail flags. *)
Record TextFields := mkTextFields {
  __text : string;
  __format : Z;
  __mode : TextMode;
  __detail : Z
}.

(** One constructor per node class: the class of a node is the
    constructor of its [data].  Element classes carry their ordered child
    keys. *)
Inductive NodeData :=
| RootData (children : list NodeKey)
| TestTextData (t : TextFields)
| HashtagData (t : TextFields)
| MentionData (mention : string) (t : TextFields)
| HorizontalRuleData
| OverflowData (children : list NodeKey).

Record LexicalNode := mkNode {
  __key : NodeKey;
  __parent : option NodeKey;
  data : NodeData
}.

(** [node.constructor.getType()], read off the class. *)
Definition getType (node : LexicalNode) : string :=
  match data node with
  | RootData _ => "root"
  | TestTextData _ => "test_text"
  | HashtagData _ => "hashtag"
  | MentionData _ _ => "mention"
  | HorizontalRuleData => "horizontalrule"
  | OverflowData _ => "overflow"
  end.

(** The text fields of a node of a text class. *)
Definition textFields (node : LexicalNode) : option TextFields :=
  match data node with
  | TestTextData t | HashtagData t | MentionData _ t => Some t
  | _ => None
  end.

(** Field reads [node.__text] and [node.__mention].  The TypeScript
    parameter types admit them only on nodes that have the field; on other
    nodes the default stands for JavaScript's [undefined]. *)
Definition node__text (node : LexicalNode) : string :=
  from_option __text "" (textFields node).

Definition node__mention (node : LexicalNode) : string :=
  match data node with
  | MentionData m _ => m
  | _ => ""
  end.

(** The field write [node.__mention = mentionName]. *)
Definition set__mention (mentionName : string) (node : LexicalNode) : LexicalNode :=
  match data node with
  | MentionData _ t => mkNode (__key node) (__parent node) (MentionData mentionName t)
  | _ => node
  end.

(** The ordered child keys of an element; a leaf has none. *)
Definition getChildrenKeys (node : LexicalNode) : list NodeKey :=
  match data node with
  | RootData c | OverflowData c => c
  | _ => []
  end.

(** [$isElementNode]: the classes that extend ElementNode. *)
Definition isElementNode (node : LexicalNode) : bool :=
  match data node with
  | RootData _ | OverflowData _ => true
  | _ => false
  end.

(** Writes of the child keys and of the parent link. *)
Definition setChildrenKeys (c : list NodeKey) (node : LexicalNode) : LexicalNode :=
  match data node with
  | RootData _ => mkNode (__key node) (__parent node) (RootData c)
  | OverflowData _ => mkNode (__key node) (__parent node) (OverflowData c)
  | _ => node
  end.

Definition setParent (p : option NodeKey) (node : LexicalNode) : LexicalNode :=
  mkNode (__key node) p (data node).

(** Modelled from the spec: the selection, which is a range, a set of
    node keys, or none. *)
Inductive Selection :=
| RangeSelection (anchorKey : NodeKey) (anchorOffset : nat)
                 (focusKey : NodeKey) (focusOffset : nat)
| NodeSelection (_nodes : gset NodeKey)
| NoSelection.

(** Effects on collaborators outside the editor state: here the call of
    [event.preventDefault()]. *)
Inductive HostEffect :=
| PreventDefault.

(** Modelled from the spec: the errors of the core (error handling
    design), and JavaScript's TypeError for a method call on an object that
    lacks the method. *)
Inductive LexicalError :=
| StaleNodeError
| InvalidMoveError
| NoActiveTransactionError
| TypeError.

(** Modelled from the spec: the working context of the running
    transaction: the working node table, the selection, the dirty keys,
    the counter that keys are generated from, and the host effects issued
    so far. *)
Record UpdateCtx := mkCtx {
  _nodeMap : gmap NodeKey LexicalNode;
  _selection : Selection;
  _dirty : gset NodeKey;
  _keyCounter : N;
  _effects : list HostEffect
}.

(** Writes to the fields of the working context; [withDirty] adds keys to
    the dirty set. *)
Definition withNodeMap (f : gmap NodeKey LexicalNode → gmap NodeKey LexicalNode)
    (c : UpdateCtx) : UpdateCtx :=
  mkCtx (f (_nodeMap c)) (_selection c) (_dirty c) (_keyCounter c) (_effects c).

Definition withSelection (s : Selection) (c : UpdateCtx) : UpdateCtx :=
  mkCtx (_nodeMap c) s (_dirty c) (_keyCounter c) (_effects c).

Definition withDirty (ks : gset NodeKey) (c : UpdateCtx) : UpdateCtx :=
  mkCtx (_nodeMap c) (_selection c) (ks ∪ _dirty c) (_keyCounter c) (_effects c).

(** ** The transaction monad *)

(** How a call ends: it returns a value or throws an error. *)
Inductive Outcome (A : Type) :=
| Returned (a : A)
| Thrown (e : LexicalError).
Arguments Returned {A} a.
Arguments Thrown {A} e.

(** A computation inside a transaction: from the working context to the
    outcome and the working context it leaves.  A throw skips the rest of
    the computation and keeps the context as the throw found it. *)
Definition M (A : Type) : Type := UpdateCtx → Outcome A * UpdateCtx.

#[global] Instance M_ret : MRet M := λ A a c, (Returned a, c).

#[global] Instance M_bind : MBind M := λ A B f m c,
  match m c with
  | (Returned a, c') => f a c'
  | (Thrown e, c') => (Thrown e, c')
  end.

Definition throw {A} (e : LexicalError) : M A := λ c, (Thrown e, c).
Definition getCtx : M UpdateCtx := λ c, (Returned c, c).
Definition modifyCtx (f : UpdateCtx → UpdateCtx) : M unit := λ c, (Returned tt, f c).

(** ** Editor configuration

    The configuration accepted by [createTestEditor]/[createEditor]: the
    registered node classes, where an entry is either a class or a
    replacement [{replace: Klass, with: (node) => LexicalNode}], and the
    optional error callback [onError].  A class is named by its type tag.
    [onError] is true when the configuration gives the callback; what the
    callback does with the error is the host's business. *)
Inductive NodeRegistration :=
| RegisterKlass (type : string)
| RegisterReplacement (replace : string) (with_ : LexicalNode → M LexicalNode).

Record EditorConfig := mkConfig {
  nodes : list NodeRegistration;
  onError : bool
}.

(** The [with] function of the first replacement entry for the class of
    type [type], if the configuration has one. *)
Fixpoint registeredReplacement (regs : list NodeRegistration) (type : string)
    : option (LexicalNode → M LexicalNode) :=
  match regs with
  | [] => None
  | RegisterReplacement ty f :: regs' =>
      if decide (ty = type) then Some f else registeredReplacement regs' type
  | RegisterKlass _ :: regs' => registeredReplacement regs' type
  end.

(** Modelled from the spec: [$applyNodeReplacement] is imported from the
    [lexical] package.  Spec, design notes: construction can transparently
    substitute a different live node; the substitute is what the [with]
    function registered for the node's class returns, and a class with no
    replacement keeps the constructed node. *)
Definition applyNodeReplacement (cfg : EditorConfig) (node : LexicalNode)
    : M LexicalNode :=
  match registeredReplacement (nodes cfg) (getType node) with
  | Some replaceFunc => replaceFunc node
  | None => mret node
  end.

(** ** Base classes *)

(** Modelled from the spec: key generation of the base constructor.  Keys
    are opaque and unique within an editor instance; they are printed from
    a counter that only grows. *)
Definition generateKey : M NodeKey := λ c,
  (Returned (pretty (_keyCounter c)),
   mkCtx (_nodeMap c) (_selection c) (_dirty c) (N.succ (_keyCounter c)) (_effects c)).

(** Modelled from the spec: a write to the working table of the running
    transaction.  The node is stored under its key, and the key joins the
    dirty set that scopes the reconciler's work. *)
Definition storeNode (node : LexicalNode) : M unit :=
  modifyCtx (λ c, withDirty {[__key node]} (withNodeMap <[__key node := node]> c)).

(** Modelled from the spec: the LexicalNode base constructor
    ([super(key)]).  A node constructed with a key (as [clone] does) takes
    that key and is not entered in the working table; one constructed
    without a key gets a fresh key and enters the working table of the
    running transaction. *)
Definition LexicalNode_constructor (d : NodeData) (key : option NodeKey)
    : M LexicalNode :=
  match key with
  | Some k => mret (mkNode k None d)
  | None =>
      k ← generateKey;
      let this := mkNode k None d in
      storeNode this;;
      mret this
  end.

(** A field assignment [this.f = v] inside a subclass constructor, after
    [super] has run: the object constructed without a key is the one the
    working table holds, so the assignment shows there too. *)
Definition assignInConstructor (key : option NodeKey) (this : LexicalNode)
    : M LexicalNode :=
  match key with
  | Some _ => mret this
  | None => storeNode this;; mret this
  end.

(** Modelled from the spec: [$getNodeByKey] and [$getSelection] of the
    [lexical] package, the transaction-scoped lookups of the working table
    and of the selection (spec, design notes), and the selection tests
    [$isNodeSelection] and [$isRangeSelection]. *)
Definition getNodeByKey (key : NodeKey) : M (option LexicalNode) :=
  λ c, (Returned (_nodeMap c !! key), c).

Definition getSelection : M Selection := λ c, (Returned (_selection c), c).

Definition isNodeSelection (s : Selection) : bool :=
  match s with NodeSelection _ => true | _ => false end.

Definition isRangeSelection (s : Selection) : bool :=
  match s with RangeSelection _ _ _ _ => true | _ => false end.

(** Modelled from the spec: [getWritable] of the base class.  A mutation
    validates that the acting node still exists in the working table and
    fails with StaleNodeError otherwise; it acts on the table's version of
    the node. *)
Definition getWritable (this : LexicalNode) : M LexicalNode :=
  latest ← getNodeByKey (__key this);
  match latest with
  | Some node => mret node
  | None => throw StaleNodeError
  end.

Module TextNode.

(** Modelled from the spec: the TextNode base constructor
    ([super(text, key)]): string content, no format, normal mode, no detail
    flag.  [klass] is the constructor of the class being instantiated. *)
Definition constructor (klass : TextFields → NodeData) (text : string)
    (key : option NodeKey) : M LexicalNode :=
  LexicalNode_constructor (klass (mkTextFields text 0 normal 0)) key.

(** A write to the text fields of a node of a text class. *)
Definition withFields (f : TextFields → TextFields) (node : LexicalNode)
    : LexicalNode :=
  match data node with
  | TestTextData t => mkNode (__key node) (__parent node) (TestTextData (f t))
  | HashtagData t => mkNode (__key node) (__parent node) (HashtagData (f t))
  | MentionData m t => mkNode (__key node) (__parent node) (MentionData m (f t))
  | _ => node
  end.

(** Modelled from the spec: [setMode].  No write when the mode is the
    requested one already. *)
Definition setMode (type : TextMode) (this : LexicalNode) : M LexicalNode :=
  self ← getWritable this;
  match textFields self with
  | None => throw TypeError
  | Some t =>
      if decide (__mode t = type) then mret self
      else
        let self' := withFields (λ t, mkTextFields (__text t) (__format t) type (__detail t)) self in
        storeNode self';; mret self'
  end.

(** Modelled from the spec: [toggleDirectionless] flips the directionless
    bit of the detail flags. *)
Definition toggleDirectionless (this : LexicalNode) : M LexicalNode :=
  self ← getWritable this;
  match textFields self with
  | None => throw TypeError
  | Some _ =>
      let self' := withFields (λ t, mkTextFields (__text t) (__format t) (__mode t)
                                      (Z.lxor (__detail t) IS_DIRECTIONLESS)) self in
      storeNode self';; mret self'
  end.

(** Modelled from the spec: the readers of the text fields: the mode, the
    directionless flag and [getTextContent], which for a text node is its
    string content. *)
Definition getMode (this : LexicalNode) : option TextMode :=
  __mode <$> textFields this.

Definition isDirectionless (this : LexicalNode) : bool :=
  match textFields this with
  | Some t => negb (Z.land (__detail t) IS_DIRECTIONLESS =? 0)
  | None => false
  end.

Definition getTextContent (this : LexicalNode) : string := node__text this.

End TextNode.

Module ElementNode.

(** Modelled from the spec: the ElementNode base constructor
    ([super(key)]): an element with no children. *)
Definition constructor (klass : list NodeKey → NodeData) (key : option NodeKey)
    : M LexicalNode :=
  LexicalNode_constructor (klass []) key.

End ElementNode.

Module DecoratorNode.

(** Modelled from the spec: the DecoratorNode base constructor
    ([super(key)]). *)
Definition constructor (klass : NodeData) (key : option NodeKey) : M LexicalNode :=
  LexicalNode_constructor klass key.

End DecoratorNode.

(** [return obj] after methods were called on [obj]: the current fields of
    the object.  An object constructed in the running transaction is the
    one the working table holds under its key, so the writes that
    [setMode] and [toggleDirectionless] made there are writes to it. *)
Definition readObject (obj : LexicalNode) : M LexicalNode :=
  latest ← getNodeByKey (__key obj);
  mret (default obj latest).

(** ** The DOM, as far as export and import use it *)

#[warnings="-register-all"]
Inductive DOMNode :=
| DOMText (textData : string)
| DOMElement (localName : string) (attributes : gmap string string)
             (childNodes : list DOMNode).

Definition createElement (tagName : string) : DOMNode := DOMElement tagName ∅ [].

Definition setAttribute (name value : string) (element : DOMNode) : DOMNode :=
  match element with
  | DOMElement tag attrs cs => DOMElement tag (<[name := value]> attrs) cs
  | DOMText _ => element
  end.

Definition hasAttribute (name : string) (element : DOMNode) : bool :=
  match element with
  | DOMElement _ attrs _ => bool_decide (is_Some (attrs !! name))
  | DOMText _ => false
  end.

(** The [getAttribute] getter: the value of the attribute, if the element
    has it. *)
Definition getAttribute (name : string) (element : DOMNode) : option string :=
  match element with
  | DOMElement _ attrs _ => attrs !! name
  | DOMText _ => None
  end.

(** The [childNodes] getter; a text node has no children. *)
Definition getChildNodes (element : DOMNode) : list DOMNode :=
  match element with
  | DOMElement _ _ cs => cs
  | DOMText _ => []
  end.

(** The key of a conversion map that an element is looked up under. *)
Definition nodeName (element : DOMNode) : string :=
  match element with
  | DOMElement tag _ _ => tag
  | DOMText _ => "#text"
  end.

(** The [textContent] getter: the concatenated text of the descendants.
    It is never null on an element or a text node. *)
Fixpoint textContent (domNode : DOMNode) : option string :=
  match domNode with
  | DOMText s => Some s
  | DOMElement _ _ cs =>
      Some ((fix go (l : list DOMNode) : string :=
               match l with
               | [] => ""
               | c :: l' => default "" (textContent c) +:+ go l'
               end) cs)
  end.

(** The [textContent] setter: the children are replaced by one text node,
    or by none for the empty string. *)
Definition set_textContent (value : string) (element : DOMNode) : DOMNode :=
  match element with
  | DOMElement tag attrs _ =>
      DOMElement tag attrs (if decide (value = "") then [] else [DOMText value])
  | DOMText _ => DOMText value
  end.

(** The setter [element.className = value] writes the [class] attribute. *)
Definition set_className (value : string) (element : DOMNode) : DOMNode :=
  setAttribute "class" value element.

(** The setter [element.style.cssText = value].  The browser parses the
    assigned declarations and writes the [style] attribute with their
    serialisation, which is not the assigned string: a declaration gets its
    closing semicolon.  The serialisation is the browser's and is taken as
    the parameter [serialize]. *)
Definition set_style_cssText (serialize : string → string) (value : string)
    (element : DOMNode) : DOMNode :=
  setAttribute "style" (serialize value) element.

(** The [config] argument of [createDOM] ([EditorConfig] in the imports of
    the sources), as far as the node classes read it: the theme, and of
    the theme the class name for the character-limit overflow, which is a
    string or is not given. *)
Record EditorThemeClasses := mkTheme { characterLimit : option string }.

Record RenderConfig := mkRenderConfig { theme : EditorThemeClasses }.

Record DOMExportOutput := mkExport { element : DOMNode }.

Record DOMConversionOutput := mkOutput { node : LexicalNode }.

Record DOMConversion := mkConversion {
  conversion : DOMNode → M (option DOMConversionOutput);
  priority : Z
}.

(** An object literal keyed by tag name. *)
Abbreviation DOMConversionMap := (gmap string (DOMNode → option DOMConversion)).

(** Modelled from the spec: how the import of the external format uses a
    class's conversion map (spec, external interfaces: a mapping from
    external tag name to conversion function and priority).  The entry
    under the element's tag name is asked for a conversion, and the
    conversion is run on the element. *)
Definition importElement (map : option DOMConversionMap) (domNode : DOMNode)
    : M (option DOMConversionOutput) :=
  match map with
  | None => mret None
  | Some m =>
      match m !! nodeName domNode with
      | None => mret None
      | Some propose =>
          match propose domNode with
          | None => mret None
          | Some conv => conversion conv domNode
          end
      end
  end.

(** The event objects handed to command listeners (KeyboardEvent and
    MouseEvent): the event's target and the shift modifier.  A target is
    null ([None]) or a DOM element.  The element that renders the node of
    key [k] is named by [k]; an element that renders no node carries a name
    that is no node's key. *)
Record UIEvent := mkEvent {
  target : option NodeKey;
  shiftKey : bool
}.

Definition preventDefault (event : UIEvent) : M unit :=
  modifyCtx (λ c, mkCtx (_nodeMap c) (_selection c) (_dirty c) (_keyCounter c)
                        (_effects c ++ [PreventDefault])).

(** ** Document tree mutations

    The mutation methods of the base classes are imported from the
    [lexical] package; they follow the spec's document tree model
    (component design).  Each validates that the nodes it
    acts on exist in the working table (StaleNodeError), that the move
    creates no cycle (InvalidMoveError when the target is the moved node or
    one of its descendants) and that only an element takes children
    (InvalidMoveError); a mutation marks the touched nodes dirty. *)

(** Modelled from the spec: the cycle check of a structural move, a walk
    up the parent links from [k] that looks for [anc] among live nodes. *)
Fixpoint hasAncestorOrSelf (fuel : nat) (tbl : gmap NodeKey LexicalNode)
    (anc k : NodeKey) : bool :=
  match fuel with
  | O => false
  | S fuel' =>
      match tbl !! k with
      | None => false
      | Some n =>
          if decide (k = anc) then true
          else match __parent n with
               | None => false
               | Some p => hasAncestorOrSelf fuel' tbl anc p
               end
      end
  end.

(** Modelled from the spec: [isDescendantOrSelf tbl anc k] says whether
    the move of [anc] under or next to [k] would close a cycle (the target
    is a descendant of the node being moved, or the node itself).  The walk
    is as long as the table has nodes. *)
Definition isDescendantOrSelf (tbl : gmap NodeKey LexicalNode) (anc k : NodeKey)
    : bool :=
  hasAncestorOrSelf (size tbl) tbl anc k.

(** [parent] with the key [k] taken out of its ordered child keys. *)
Definition withoutChild (k : NodeKey) (parent : LexicalNode) : LexicalNode :=
  setChildrenKeys (filter (λ c, c ≠ k) (getChildrenKeys parent)) parent.

(** Modelled from the spec: detaching a node, which takes its key [k]
    out of the child list of its parent. *)
Definition detachFromParent (k : NodeKey) (node : LexicalNode)
    (tbl : gmap NodeKey LexicalNode) : gmap NodeKey LexicalNode :=
  match __parent node with
  | Some p => alter (withoutChild k) p tbl
  | None => tbl
  end.

(** Modelled from the spec: a node is destroyed by removal from the tree,
    its key evicted from the node table; the nodes below it, found through
    the child lists, go with it. *)
Fixpoint evictSubtree (fuel : nat) (k : NodeKey) (tbl : gmap NodeKey LexicalNode)
    : gmap NodeKey LexicalNode :=
  match fuel with
  | O => tbl
  | S fuel' =>
      match tbl !! k with
      | None => tbl
      | Some n => foldr (evictSubtree fuel') (delete k tbl) (getChildrenKeys n)
      end
  end.

(** The key of the parent, as a set of dirty keys. *)
Definition parentKeys (node : LexicalNode) : gset NodeKey :=
  match __parent node with
  | Some p => {[p]}
  | None => ∅
  end.

(** Modelled from the spec: [node.remove()] of the base class.  The node
    must exist in the working table (StaleNodeError); it leaves its
    parent's child list and its key, with the keys below it, is evicted
    from the working table; the node and its parent are marked dirty. *)
Definition remove (this : LexicalNode) : M unit :=
  c ← getCtx;
  match _nodeMap c !! __key this with
  | None => throw StaleNodeError
  | Some latest =>
      modifyCtx (λ c,
        withDirty ({[__key this]} ∪ parentKeys latest)
          (withNodeMap (λ tbl, evictSubtree (size tbl) (__key this)
                                  (detachFromParent (__key this) latest tbl)) c))
  end.

(** The structural moves of the tree contract (spec, document tree
    model): [append], [insertAfter], [insertBefore] and [replace]. *)
Inductive MoveKind := Append | InsertAfter | InsertBefore | Replace.

(** Modelled from the spec: the child order after a move.  [k] is put
    next to [target] in the child list, or in its place for Replace. *)
Fixpoint placeBeside (kind : MoveKind) (target k : NodeKey) (l : list NodeKey)
    : list NodeKey :=
  match l with
  | [] => []
  | x :: l' =>
      if decide (x = target) then
        match kind with
        | InsertAfter => x :: k :: l'
        | InsertBefore => k :: x :: l'
        | Replace => k :: l'
        | Append => x :: l'
        end
      else x :: placeBeside kind target k l'
  end.

(** Modelled from the spec: the table after a move that was found valid.
    The node [moved] under key [km] leaves its old parent and enters the child
    list of the new parent [kp], beside the target [kt] or at the end. *)
Definition relink (kind : MoveKind) (kt km kp : NodeKey) (moved : LexicalNode)
    (tbl : gmap NodeKey LexicalNode) : gmap NodeKey LexicalNode :=
  let tbl1 := detachFromParent km moved tbl in
  let place (p : LexicalNode) :=
    match kind with
    | Append => setChildrenKeys (getChildrenKeys p ++ [km]) p
    | _ => setChildrenKeys (placeBeside kind kt km (getChildrenKeys p)) p
    end in
  let tbl2 := alter place kp tbl1 in
  let tbl3 := <[km := setParent (Some kp) moved]> tbl2 in
  match kind with
  | Replace => evictSubtree (size tbl3) kt tbl3
  | _ => tbl3
  end.

(** Modelled from the spec: a structural move of [nodeToMove] to the
    position named by [this], for [this.append(node)],
    [this.insertAfter(node)], [this.insertBefore(node)] and
    [this.replace(node)] of the base classes.  The validations come in the
    order of spec section 4.1: both nodes exist in the working table
    (StaleNodeError); the target is not the moved node or one of its
    descendants (InvalidMoveError); the node that takes the child is an
    element (InvalidMoveError). *)
Definition moveNode (kind : MoveKind) (this nodeToMove : LexicalNode) : M unit :=
  c ← getCtx;
  let tbl := _nodeMap c in
  match tbl !! __key this, tbl !! __key nodeToMove with
  | Some target, Some moved =>
      if isDescendantOrSelf tbl (__key nodeToMove) (__key this)
      then throw InvalidMoveError
      else
        let newParent :=
          match kind with
          | Append => Some (__key this)
          | _ => __parent target
          end in
        match newParent with
        | Some kp =>
            match tbl !! kp with
            | Some p =>
                if isElementNode p
                then modifyCtx (λ c,
                       withDirty ({[__key nodeToMove; kp]} ∪ parentKeys moved)
                         (withNodeMap
                            (relink kind (__key this) (__key nodeToMove) kp moved) c))
                else throw InvalidMoveError
            | None => throw StaleNodeError
            end
        | None => throw InvalidMoveError
        end
  | _, _ => throw StaleNodeError
  end.

(** Modelled from the spec: the four mutation methods by name. *)
Definition append (this nodeToAppend : LexicalNode) : M unit :=
  moveNode Append this nodeToAppend.
Definition insertAfter (this nodeToInsert : LexicalNode) : M unit :=
  moveNode InsertAfter this nodeToInsert.
Definition insertBefore (this nodeToInsert : LexicalNode) : M unit :=
  moveNode InsertBefore this nodeToInsert.
Definition replace (this replaceWith : LexicalNode) : M unit :=
  moveNode Replace this replaceWith.

(** ** unit-test utilities (src/unnamed/part_000) *)

Module TestTextNode.

Definition getType : string := "test_text".

(** The class declares no constructor: [new TestTextNode(text, key)] runs
    the inherited TextNode constructor. *)
Definition new (text : string) (key : option NodeKey) : M LexicalNode :=
  TextNode.constructor TestTextData text key.

Definition clone (node : LexicalNode) : M LexicalNode :=
  new (node__text node) (Some (__key node)).

End TestTextNode.

(** ** @lexical/hashtag (src/unnamed/part_001) *)

Module HashtagNode.

Definition getType : string := "hashtag".

Definition new (cfg : EditorConfig) (text : string) (key : option NodeKey)
    : M LexicalNode :=
  this ← TextNode.constructor HashtagData text key;
  applyNodeReplacement cfg this.

Definition clone (cfg : EditorConfig) (node : LexicalNode) : M LexicalNode :=
  new cfg (node__text node) (Some (__key node)).

Definition canInsertTextBefore (this : LexicalNode) : bool := false.

Definition isTextEntity (this : LexicalNode) : bool := true.

(** [$createHashtagNode(text = '')] *)
Definition createHashtagNode (cfg : EditorConfig) (text : option string)
    : M LexicalNode :=
  new cfg (default "" text) None.

(** [$isHashtagNode]: [node instanceof HashtagNode] *)
Definition isHashtagNode (node : option LexicalNode) : bool :=
  match data <$> node with
  | Some (HashtagData _) => true
  | _ => false
  end.

End HashtagNode.

(** ** @lexical/overflow (src/packages/lexical-overflow/src/index.ts) *)

Module OverflowNode.

Definition getType : string := "overflow".

(** The constructor's [this.__type = 'overflow'] repeats what the class
    says already. *)
Definition new (cfg : EditorConfig) (key : option NodeKey) : M LexicalNode :=
  this ← ElementNode.constructor OverflowData key;
  applyNodeReplacement cfg this.

Definition clone (cfg : EditorConfig) (node : LexicalNode) : M LexicalNode :=
  new cfg (Some (__key node)).

Definition importDOM : option DOMConversionMap := None.

(** [createDOM(config)]; the test [typeof className === 'string'] is the
    case that the theme gives the class name. *)
Definition createDOM (this : LexicalNode) (config : RenderConfig) : DOMNode :=
  let div := createElement "span" in
  let className := characterLimit (theme config) in
  match className with
  | Some className => set_className className div
  | None => div
  end.

Definition updateDOM (this prevNode : LexicalNode) (dom : DOMNode) : bool := false.

Definition excludeFromCopy (this : LexicalNode) : bool := true.

(** [$createOverflowNode] *)
Definition createOverflowNode (cfg : EditorConfig) : M LexicalNode := new cfg None.

(** [$isOverflowNode] *)
Definition isOverflowNode (node : option LexicalNode) : bool :=
  match data <$> node with
  | Some (OverflowData _) => true
  | _ => false
  end.

End OverflowNode.

(** ** playground MentionNode
    (src/packages/lexical-playground/src/nodes/MentionNode.ts) *)

Module MentionNode.

Definition getType : string := "mention".

(** [constructor(mentionName, text?, key?)]:
    [super(text ?? mentionName, key); this.__mention = mentionName;
     return $applyNodeReplacement(this)] *)
Definition new (cfg : EditorConfig) (mentionName : string) (text : option string)
    (key : option NodeKey) : M LexicalNode :=
  this ← TextNode.constructor (MentionData "") (default mentionName text) key;
  this ← assignInConstructor key (set__mention mentionName this);
  applyNodeReplacement cfg this.

Definition clone (cfg : EditorConfig) (node : LexicalNode) : M LexicalNode :=
  new cfg (node__mention node) (Some (node__text node)) (Some (__key node)).

Definition mentionStyle : string := "background-color: rgba(24, 119, 232, 0.2)".

(** [createDOM(config)]; [inherited] stands for [super.createDOM], the
    TextNode implementation, and [serialize] for the browser's
    serialisation of style declarations. *)
Definition createDOM (serialize : string → string)
    (inherited : LexicalNode → RenderConfig → DOMNode)
    (this : LexicalNode) (config : RenderConfig) : DOMNode :=
  let dom := inherited this config in
  let dom := set_style_cssText serialize mentionStyle dom in
  let dom := set_className "mention" dom in
  dom.

Definition exportDOM (this : LexicalNode) : DOMExportOutput :=
  let element := createElement "span" in
  let element := setAttribute "data-lexical-mention" "true" element in
  let element := set_textContent (node__text this) element in
  mkExport element.

Definition isTextEntity (this : LexicalNode) : bool := true.

(** [$createMentionNode] *)
Definition createMentionNode (cfg : EditorConfig) (mentionName : string)
    : M LexicalNode :=
  mentionNode ← new cfg mentionName None None;
  self ← TextNode.setMode segmented mentionNode;
  _ ← TextNode.toggleDirectionless self;
  readObject mentionNode.

Definition convertMentionElement (cfg : EditorConfig) (domNode : DOMNode)
    : M (option DOMConversionOutput) :=
  match textContent domNode with
  | Some text =>
      node ← createMentionNode cfg text;
      mret (Some (mkOutput node))
  | None => mret None
  end.

Definition importDOM (cfg : EditorConfig) : option DOMConversionMap :=
  Some {[ "span" := λ domNode : DOMNode,
            if negb (hasAttribute "data-lexical-mention" domNode) then None
            else Some (mkConversion (convertMentionElement cfg) 1) ]}.

(** [$isMentionNode] *)
Definition isMentionNode (node : option LexicalNode) : bool :=
  match data <$> node with
  | Some (MentionData _ _) => true
  | _ => false
  end.

End MentionNode.

(** ** Editor state, commands and the update engine *)

#[global] Instance TextFields_eq_dec : EqDecision TextFields.
Proof. solve_decision. Defined.
#[global] Instance NodeData_eq_dec : EqDecision NodeData.
Proof. solve_decision. Defined.
#[global] Instance LexicalNode_eq_dec : EqDecision LexicalNode.
Proof. solve_decision. Defined.
#[global] Instance Selection_eq_dec : EqDecision Selection.
Proof. solve_decision. Defined.

(** Modelled from the spec: the Editor State, an immutable snapshot of
    the node table and the selection, versioned. *)
Record EditorState := mkEditorState {
  nodeMap : gmap NodeKey LexicalNode;
  selection : Selection;
  version : N
}.

Inductive LexicalCommand :=
| CLICK_COMMAND
| KEY_DELETE_COMMAND
| KEY_BACKSPACE_COMMAND
| INSERT_HORIZONTAL_RULE_COMMAND.

#[global] Instance LexicalCommand_eq_dec : EqDecision LexicalCommand.
Proof. solve_decision. Defined.

(** Modelled from the spec: the priority constant that the sources import
    from [lexical].  A priority is a number and a higher one is served
    first; the theorems use of this one only that it is one number. *)
Definition COMMAND_PRIORITY_LOW : Z := 1.

(** Modelled from the spec: a registered command listener.  [handle]
    identifies the registration and is what unregistering takes. *)
Record CommandRegistration := mkRegistration {
  command : LexicalCommand;
  listener : UIEvent → M bool;
  listenerPriority : Z;
  handle : nat
}.

(** Modelled from the spec: what the collaborators of the editor get to
    see of a transaction: the error callback's call or the uncaught error,
    the hand-off to the reconciler, and the update listeners' notice. *)
Inductive EditorEvent :=
| ErrorCallback (e : LexicalError)
| UncaughtError (e : LexicalError)
| Reconciled (prev next : EditorState) (dirtyKeys : gset NodeKey)
| UpdateListeners (next : EditorState).

(** Modelled from the spec: the editor instance: its configuration, the
    current Editor State, the registered command listeners, the counters
    for handles and keys, and the events seen by the host so far. *)
Record LexicalEditor := mkEditor {
  _config : EditorConfig;
  _editorState : EditorState;
  _commands : list CommandRegistration;
  _nextHandle : nat;
  _nextKey : N;
  _events : list EditorEvent
}.

(** Modelled from the spec: [registerCommand(type, handler, priority)]
    returns an unregister handle. *)
Definition registerCommand (type : LexicalCommand) (handler : UIEvent → M bool)
    (priority : Z) (editor : LexicalEditor) : LexicalEditor * nat :=
  let h := _nextHandle editor in
  (mkEditor (_config editor) (_editorState editor)
     (_commands editor ++ [mkRegistration type handler priority h])
     (S h) (_nextKey editor) (_events editor), h).

(** Modelled from the spec: calling the unregister handle. *)
Definition unregister (h : nat) (editor : LexicalEditor) : LexicalEditor :=
  mkEditor (_config editor) (_editorState editor)
    (filter (λ r, handle r ≠ h) (_commands editor))
    (_nextHandle editor) (_nextKey editor) (_events editor).

(** Modelled from the spec: the order of the walk.  A registration is
    placed before the first one of a priority that is not higher, so that
    among equal priorities the earlier registration stays first. *)
Fixpoint insertByPriority (r : CommandRegistration) (l : list CommandRegistration)
    : list CommandRegistration :=
  match l with
  | [] => [r]
  | x :: l' =>
      if decide (listenerPriority x ≤ listenerPriority r)
      then r :: x :: l'
      else x :: insertByPriority r l'
  end.

(** Modelled from the spec: the registrations from the highest priority
    to the lowest. *)
Definition sortByPriority (l : list CommandRegistration) : list CommandRegistration :=
  foldr insertByPriority [] l.

(** Modelled from the spec: the chain a dispatch of [type] walks, the
    listeners registered for the command from the highest priority to the
    lowest. *)
Definition listenersFor (regs : list CommandRegistration) (type : LexicalCommand)
    : list CommandRegistration :=
  sortByPriority (filter (λ r, command r = type) regs).

(** One entry per listener that a dispatch called, with what the listener
    returned. *)
Record Invocation := mkInvocation {
  invoked : nat;
  returned : bool
}.

(** Modelled from the spec: the walk.  The listeners of the chain are
    called in order until one returns true; a listener that throws ends the
    walk with its error. *)
Fixpoint runListeners (chain : list CommandRegistration) (payload : UIEvent)
    : M (list Invocation) :=
  match chain with
  | [] => mret []
  | r :: chain' =>
      handled ← listener r payload;
      if handled : bool then mret [mkInvocation (handle r) true]
      else
        rest ← runListeners chain' payload;
        mret (mkInvocation (handle r) false :: rest)
  end.

(** Modelled from the spec: the dispatch of a command (component design,
    command dispatch).  Dispatch walks the handlers from highest to lowest
    priority and stops at the first handler returning true; the result
    says whether one did. *)
Definition triggerCommandListeners (regs : list CommandRegistration)
    (type : LexicalCommand) (payload : UIEvent) : M bool :=
  trace ← runListeners (listenersFor regs type) payload;
  mret (existsb returned trace).

(** The node keys a selection references. *)
Definition selectionKeys (s : Selection) : gset NodeKey :=
  match s with
  | RangeSelection a _ f _ => {[a; f]}
  | NodeSelection ks => ks
  | NoSelection => ∅
  end.

(** Modelled from the spec: step 2 of the transaction commit.  A
    selection that references a key no longer in the node table collapses
    to null. *)
Definition validateSelection (tbl : gmap NodeKey LexicalNode) (s : Selection)
    : Selection :=
  if decide (selectionKeys s ⊆ dom tbl) then s else NoSelection.

(** Modelled from the spec: the working copy a transaction starts from:
    the node table and selection of the current Editor State, and no dirty
    key. *)
Definition beginUpdate (editor : LexicalEditor) : UpdateCtx :=
  mkCtx (nodeMap (_editorState editor)) (selection (_editorState editor)) ∅
        (_nextKey editor) [].

(** Modelled from the spec: the transaction commit.  The selection is
    validated, the working table is frozen into the next Editor State, the
    reconciler gets the previous state, the next state and the dirty keys,
    and the update listeners are notified.  A transaction that changed
    nothing leaves the Editor State as it is and causes no reconciliation. *)
Definition commit (editor : LexicalEditor) (c : UpdateCtx) : LexicalEditor :=
  let prev := _editorState editor in
  let sel := validateSelection (_nodeMap c) (_selection c) in
  if decide (_dirty c = ∅ ∧ sel = selection prev) then
    mkEditor (_config editor) prev (_commands editor) (_nextHandle editor)
             (_keyCounter c) (_events editor)
  else
    let next := mkEditorState (_nodeMap c) sel (N.succ (version prev)) in
    mkEditor (_config editor) next (_commands editor) (_nextHandle editor)
             (_keyCounter c)
             (_events editor ++ [Reconciled prev next (_dirty c); UpdateListeners next]).

(** Modelled from the spec: [editor.update(mutatorFn)] (update engine,
    concurrency model, error handling) runs the mutator on a working
    copy; a mutator that throws has its working copy discarded, the prior
    Editor State stays, and the error goes to the configured error
    callback, or to the host uncaught when there is none. *)
Definition update (editor : LexicalEditor) (mutatorFn : M unit) : LexicalEditor :=
  match mutatorFn (beginUpdate editor) with
  | (Returned _, c) => commit editor c
  | (Thrown e, c) =>
      mkEditor (_config editor) (_editorState editor) (_commands editor)
               (_nextHandle editor) (_keyCounter c)
               (_events editor ++
                  [if onError (_config editor) then ErrorCallback e else UncaughtError e])
  end.

(** Modelled from the spec: [editor.dispatchCommand(type, payload)] routes
    the command into an update transaction, in which the listeners run. *)
Definition dispatchCommand (editor : LexicalEditor) (type : LexicalCommand)
    (payload : UIEvent) : LexicalEditor :=
  update editor (_ ← triggerCommandListeners (_commands editor) type payload; mret tt).

(** Modelled from the spec: [editor.getElementByKey(key)] of the [lexical]
    package.  The reconciler keeps the live surface representing the
    current Editor State (spec, reconciler): the key of a node of that
    state has its DOM element, named by the key, and any other key has
    none, for which the method answers null. *)
Definition getElementByKey (editor : LexicalEditor) (key : NodeKey)
    : option NodeKey :=
  if decide (is_Some (nodeMap (_editorState editor) !! key)) then Some key else None.

(** ** @lexical/react useLexicalNodeSelection

    The hook is imported from [@lexical/react]; it follows the spec's
    selection model: the Node-selection variant tracks a set of selected
    node keys.  The hook gives a component the flag [isSelected] for its
    key and two writers, which act on the selection of the running
    transaction. *)
Module useLexicalNodeSelection.

(** Modelled from the spec: the flag [isSelected] of the hook: the key is
    in the set of a Node-selection. *)
Definition isNodeSelected (s : Selection) (key : NodeKey) : bool :=
  match s with
  | NodeSelection ks => bool_decide (key ∈ ks)
  | _ => false
  end.

(** Modelled from the spec: [setSelected(selected)] adds the key to the
    set of the Node-selection or takes it out; a selection of another kind
    gives way to a Node-selection. *)
Definition setSelected (key : NodeKey) (selected : bool) : M unit :=
  modifyCtx (λ c,
    let ks := match _selection c with NodeSelection ks => ks | _ => ∅ end in
    withSelection (NodeSelection (if selected then {[key]} ∪ ks else ks ∖ {[key]})) c).

(** Modelled from the spec: [clearSelection()] empties the set of a
    Node-selection. *)
Definition clearSelection : M unit :=
  modifyCtx (λ c,
    match _selection c with
    | NodeSelection _ => withSelection (NodeSelection ∅) c
    | _ => c
    end).

End useLexicalNodeSelection.

(** ** HorizontalRuleNode and its component
    (src/packages/lexical/src/nodes/LexicalGridCellNode.ts, second part) *)

Module HorizontalRuleNode.

Definition getType : string := "horizontalrule".

Definition new (cfg : EditorConfig) (key : option NodeKey) : M LexicalNode :=
  this ← DecoratorNode.constructor HorizontalRuleData key;
  applyNodeReplacement cfg this.

Definition clone (cfg : EditorConfig) (node : LexicalNode) : M LexicalNode :=
  new cfg (Some (__key node)).

(** [$createHorizontalRuleNode] *)
Definition createHorizontalRuleNode (cfg : EditorConfig) : M LexicalNode :=
  new cfg None.

(** [$isHorizontalRuleNode]: [node instanceof HorizontalRuleNode] *)
Definition isHorizontalRuleNode (node : option LexicalNode) : bool :=
  match data <$> node with
  | Some HorizontalRuleData => true
  | _ => false
  end.

Definition convertHorizontalRuleElement (cfg : EditorConfig) (domNode : DOMNode)
    : M (option DOMConversionOutput) :=
  node ← createHorizontalRuleNode cfg;
  mret (Some (mkOutput node)).

Definition importDOM (cfg : EditorConfig) : option DOMConversionMap :=
  Some {[ "hr" := λ _ : DOMNode,
            Some (mkConversion (convertHorizontalRuleElement cfg) 0) ]}.

Definition exportDOM (this : LexicalNode) : DOMExportOutput :=
  mkExport (createElement "hr").

Definition createDOM (this : LexicalNode) : DOMNode := createElement "hr".

Definition getTextContent (this : LexicalNode) : string :=
  String (Ascii.ascii_of_nat 10) "".

Definition isInline (this : LexicalNode) : bool := false.

Definition updateDOM (this : LexicalNode) : bool := false.

(** A mounted [HorizontalRuleComponent]: its prop [nodeKey] and the
    [isSelected] state its [useLexicalNodeSelection(nodeKey)] hook holds. *)
Record HorizontalRuleComponent := mkComponent {
  nodeKey : NodeKey;
  isSelected : bool
}.

(** [decorate()]: the component element, with the node's key as its prop. *)
Definition decorate (this : LexicalNode) : NodeKey := __key this.

(** The [onDelete] callback, registered for KEY_DELETE_COMMAND and for
    KEY_BACKSPACE_COMMAND. *)
Definition onDelete (self : HorizontalRuleComponent) (payload : UIEvent) : M bool :=
  selection ← getSelection;
  if isSelected self && isNodeSelection selection then
    let event := payload in
    preventDefault event;;
    node ← getNodeByKey (nodeKey self);
    (if isHorizontalRuleNode node
     then match node with Some n => remove n | None => mret tt end
     else mret tt);;
    useLexicalNodeSelection.setSelected (nodeKey self) false;;
    mret false
  else mret false.

(** The CLICK_COMMAND listener.  [editor] is the editor of the composer
    context that the component closes over; [hrElem] is null when the
    editor has no element for the key, and a null target is then equal to
    it. *)
Definition onClick (editor : LexicalEditor) (self : HorizontalRuleComponent)
    (event : UIEvent) : M bool :=
  let hrElem := getElementByKey editor (nodeKey self) in
  if decide (target event = hrElem) then
    (if negb (shiftKey event) then useLexicalNodeSelection.clearSelection else mret tt);;
    useLexicalNodeSelection.setSelected (nodeKey self) (negb (isSelected self));;
    mret true
  else mret false.

(** The first effect of the component: the three registrations that
    [mergeRegister] bundles, each at COMMAND_PRIORITY_LOW. *)
Definition registerListeners (self : HorizontalRuleComponent) (editor : LexicalEditor)
    : LexicalEditor * list nat :=
  let '(editor, h1) := registerCommand CLICK_COMMAND (onClick editor self)
                         COMMAND_PRIORITY_LOW editor in
  let '(editor, h2) := registerCommand KEY_DELETE_COMMAND (onDelete self)
                         COMMAND_PRIORITY_LOW editor in
  let '(editor, h3) := registerCommand KEY_BACKSPACE_COMMAND (onDelete self)
                         COMMAND_PRIORITY_LOW editor in
  (editor, [h1; h2; h3]).

(** Modelled from the spec: the rendering collaborator, which consumes
    the [decorate()] output of the decorator nodes.  It mounts one
    component per HorizontalRuleNode of the Editor State, and the hook of
    the component reads [isSelected] from the state's selection. *)
Definition mountedComponents (st : EditorState) : list HorizontalRuleComponent :=
  omap (λ kn : NodeKey * LexicalNode,
          if isHorizontalRuleNode (Some kn.2)
          then Some (mkComponent (decorate kn.2)
                       (useLexicalNodeSelection.isNodeSelected (selection st)
                          (decorate kn.2)))
          else None)
       (map_to_list (nodeMap st)).

(** Modelled from the spec: the editor after the rendering collaborator
    has mounted the components and their effects have run: its command
    listeners are those of the mounted horizontal-rule components. *)
Definition render (editor : LexicalEditor) : LexicalEditor :=
  foldl (λ ed self, (registerListeners self ed).1)
        (mkEditor (_config editor) (_editorState editor) [] (_nextHandle editor)
                  (_nextKey editor) (_events editor))
        (mountedComponents (_editorState editor)).

End HorizontalRuleNode.

(** ** Reconciler decisions *)

(** Modelled from the spec: the operations the reconciler has for the DOM
    representation of a dirty key. *)
Inductive DOMOperation :=
| RemoveDOM
| CreateDOM
| UpdateInPlace
| ReplaceDOM
| NoOperation.

(** [node.updateDOM(prevNode, dom, config)] by the class of [node].
    [inherited] stands for the base-class implementations, which the text
    classes and the root inherit. *)
Definition updateDOM (inherited : LexicalNode → LexicalNode → DOMNode → bool)
    (this prevNode : LexicalNode) (dom : DOMNode) : bool :=
  match data this with
  | HorizontalRuleData => HorizontalRuleNode.updateDOM this
  | OverflowData _ => OverflowNode.updateDOM this prevNode dom
  | _ => inherited this prevNode dom
  end.

(** Modelled from the spec: what the reconciler does with a dirty key.
    Absent in [next]: its DOM is removed; absent in [prev]: it is created;
    present in both: the node's [updateDOM] is called, and when that
    returns true the DOM node is destroyed and recreated. *)
Definition reconcileNode (inherited : LexicalNode → LexicalNode → DOMNode → bool)
    (prev next : EditorState) (dom : DOMNode) (key : NodeKey) : DOMOperation :=
  match nodeMap prev !! key, nodeMap next !! key with
  | Some _, None => RemoveDOM
  | None, Some _ => CreateDOM
  | Some prevNode, Some nextNode =>
      if updateDOM inherited nextNode prevNode dom then ReplaceDOM else UpdateInPlace
  | None, None => NoOperation
  end.

(** Modelled from the spec: the merge rule of the reconciler.  Adjacent
    text runs are merged when compatible, and never across a node whose
    mode is segmented or token. *)
Definition canMergeTextRuns (a b : LexicalNode) : bool :=
  match textFields a, textFields b with
  | Some ta, Some tb =>
      bool_decide (__mode ta = normal) && bool_decide (__mode tb = normal)
      && bool_decide (__format ta = __format tb)
  | _, _ => false
  end.

(** ** Copied and exported content *)

(** [node.excludeFromCopy()] by the class of [node].  [inherited] stands
    for the base-class implementations, which the other classes inherit. *)
Definition excludeFromCopy (inherited : LexicalNode → bool) (this : LexicalNode)
    : bool :=
  match data this with
  | OverflowData _ => OverflowNode.excludeFromCopy this
  | _ => inherited this
  end.

(** A node of copied or exported content: the type tag of the node it was
    copied from, its text, and the copies below it. *)
#[warnings="-register-all"]
Inductive CopiedNode :=
| Copied (type : string) (text : string) (children : list CopiedNode).

(** Modelled from the spec: the copy of the subtree of a key into copied
    or exported content, with no selection narrowing it.  The clipboard
    and export code is part of the repository but not among the sources;
    the spec names [excludeFromCopy()] in the node extension contract.
    The method is asked of every node of the subtree: a node that answers
    true is left out of the content and what was copied of its children
    takes its place, any other node is entered with the copies of its
    children below it. *)
Fixpoint copyNode (inherited : LexicalNode → bool) (fuel : nat)
    (tbl : gmap NodeKey LexicalNode) (k : NodeKey) : list CopiedNode :=
  match fuel with
  | O => []
  | S fuel' =>
      match tbl !! k with
      | None => []
      | Some n =>
          let children := flat_map (copyNode inherited fuel' tbl) (getChildrenKeys n) in
          if excludeFromCopy inherited n then children
          else [Copied (getType n) (node__text n) children]
      end
  end.

(** The walk goes as deep as the table has nodes. *)
Definition copySubtree (inherited : LexicalNode → bool)
    (tbl : gmap NodeKey LexicalNode) (k : NodeKey) : list CopiedNode :=
  copyNode inherited (size tbl) tbl k.

(** The type tags of a copied node and of the copies below it, in document
    order. *)
Fixpoint copiedTypes (copied : CopiedNode) : list string :=
  match copied with
  | Copied type _ children => type :: flat_map copiedTypes children
  end.

(** The nodes of the subtree of a key, in document order, as deep as the
    fuel goes. *)
Fixpoint subtreeNodes (fuel : nat) (tbl : gmap NodeKey LexicalNode) (k : NodeKey)
    : list LexicalNode :=
  match fuel with
  | O => []
  | S fuel' =>
      match tbl !! k with
      | None => []
      | Some n => n :: flat_map (subtreeNodes fuel' tbl) (getChildrenKeys n)
      end
  end.

(** ** Statements shared by theorems and counterexamples *)

(** [run], started in [c], returns a node of the class of [original] with
    its key, text and mention name. *)
Definition returnsCopyOf (run : M LexicalNode) (original : LexicalNode)
    (c : UpdateCtx) : Prop :=
  ∃ copy c', run c = (Returned copy, c')
    ∧ getType copy = getType original
    ∧ __key copy = __key original
    ∧ node__text copy = node__text original
    ∧ node__mention copy = node__mention original.

(** The static [clone] of the node's own class preserves class, key and
    content. *)
Definition clonePreservesNode (cfg : EditorConfig) (original : LexicalNode)
    (c : UpdateCtx) : Prop :=
  match data original with
  | HashtagData _ => returnsCopyOf (HashtagNode.clone cfg original) original c
  | MentionData _ _ => returnsCopyOf (MentionNode.clone cfg original) original c
  | HorizontalRuleData => returnsCopyOf (HorizontalRuleNode.clone cfg original) original c
  | OverflowData _ => returnsCopyOf (OverflowNode.clone cfg original) original c
  | _ => True
  end.

(** An editor configuration that registers no replacement for [type]. *)
Definition noReplacementFor (cfg : EditorConfig) (type : string) : Prop :=
  registeredReplacement (nodes cfg) type = None.

(** A configuration with the classes registered and nothing replaced. *)
Definition plainConfig : EditorConfig :=
  mkConfig [ RegisterKlass "hashtag"; RegisterKlass "mention";
             RegisterKlass "horizontalrule"; RegisterKlass "overflow" ] true.

(** A configuration with replacements, as [createTestEditor] accepts them:
    - [{replace: HashtagNode, with: (node) => new CustomHashtagNode(node.__text)}]
      where CustomHashtagNode extends HashtagNode and adds nothing;
    - [{replace: MentionNode, with: (node) => new AtMentionNode(node.__mention)}]
      where AtMentionNode extends MentionNode and its constructor calls
      [super(mentionName, '@' + mentionName)], so that the text shows the
      at-sign.
    The subclasses have no replacement of their own, so their constructors
    keep the node they construct.  An instance of a subclass is an
    instance of the class it extends and is written with that class's
    constructor of [NodeData]. *)
Definition replacingConfig : EditorConfig :=
  mkConfig
    [ RegisterReplacement "hashtag"
        (λ node, TextNode.constructor HashtagData (node__text node) None);
      RegisterReplacement "mention"
        (λ node, MentionNode.new plainConfig (node__mention node)
                   (Some ("@" +:+ node__mention node)) None) ]
    true.

(** The context of a transaction over an empty document, and a hashtag
    node as a HashtagNode of some document would be. *)
Definition emptyCtx : UpdateCtx := mkCtx ∅ NoSelection ∅ 0 [].

Definition lexicalHashtag : LexicalNode :=
  mkNode "7" None (HashtagData (mkTextFields "#lexical" 0 normal 0)).

(** What C8 says of the node that [$createMentionNode(mentionName)]
    returns: a MentionNode in segmented mode, directionless, with mention
    name and text content equal to the argument, which no text run merges
    with. *)
Definition createdMention (mentionName : string) (created : LexicalNode) : Prop :=
  MentionNode.isMentionNode (Some created) = true
  ∧ TextNode.getMode created = Some segmented
  ∧ TextNode.isDirectionless created = true
  ∧ node__mention created = mentionName
  ∧ TextNode.getTextContent created = mentionName
  ∧ ∀ other, canMergeTextRuns created other = false
             ∧ canMergeTextRuns other created = false.

(** [import(export(node))] for the two classes that define both: the
    class's import conversion, applied to the element its [exportDOM]
    produced, yields a node of the class with the original's text content. *)
Definition roundTrips (cfg : EditorConfig) (original : LexicalNode) (c : UpdateCtx)
    : Prop :=
  match data original with
  | MentionData _ _ =>
      ∃ out c',
        importElement (MentionNode.importDOM cfg)
                      (element (MentionNode.exportDOM original)) c
        = (Returned (Some out), c')
        ∧ MentionNode.isMentionNode (Some (node out)) = true
        ∧ TextNode.getTextContent (node out) = TextNode.getTextContent original
  | HorizontalRuleData =>
      ∃ out c',
        importElement (HorizontalRuleNode.importDOM cfg)
                      (element (HorizontalRuleNode.exportDOM original)) c
        = (Returned (Some out), c')
        ∧ HorizontalRuleNode.isHorizontalRuleNode (Some (node out)) = true
        ∧ HorizontalRuleNode.getTextContent (node out)
          = HorizontalRuleNode.getTextContent original
  | _ => True
  end.

(** A mention node as [$createMentionNode("alice")] makes it. *)
Definition aliceMention : LexicalNode :=
  mkNode "3" None (MentionData "alice" (mkTextFields "alice" 0 segmented 1)).

(** ** The descendant relation of a node table *)

(** [descendantOrSelf tbl anc k]: [k] is the live node [anc] or a live
    node below it, that is, the parent links of the table lead from [k] up
    to [anc]. *)
Inductive descendantOrSelf (tbl : gmap NodeKey LexicalNode) (anc : NodeKey)
    : NodeKey → Prop :=
| descendant_self n :
    tbl !! anc = Some n → descendantOrSelf tbl anc anc
| descendant_child k n p :
    tbl !! k = Some n → __parent n = Some p →
    descendantOrSelf tbl anc p → descendantOrSelf tbl anc k.

(** [reaches tbl anc n k]: the walk up from [k] meets [anc] for the first
    time after [n] parent links. *)
Fixpoint reaches (tbl : gmap NodeKey LexicalNode) (anc : NodeKey) (n : nat)
    (k : NodeKey) : Prop :=
  match n with
  | O => k = anc ∧ is_Some (tbl !! k)
  | S n' => k ≠ anc ∧ ∃ x p, tbl !! k = Some x ∧ __parent x = Some p
                             ∧ reaches tbl anc n' p
  end.

(** A small document: the root holds the overflow node "a", which holds
    the overflow node "b", which holds the hashtag "h". *)
Definition nestedTable : gmap NodeKey LexicalNode :=
  {[ "root" := mkNode "root" None (RootData ["a"]);
     "a" := mkNode "a" (Some "root") (OverflowData ["b"]);
     "b" := mkNode "b" (Some "a") (OverflowData ["h"]);
     "h" := mkNode "h" (Some "b") (HashtagData (mkTextFields "#lexical" 0 normal 0)) ]}.

(** The context of a transaction over the small document. *)
Definition nestedCtx : UpdateCtx := mkCtx nestedTable NoSelection ∅ 0 [].

(** ** The walk of a listener chain, as a relation *)

(** [walked payload chain c trace c']: started in [c], the listeners of
    [chain] were called one after the other, each in the context the one
    before left; a listener that returned false passed the command on, the
    first that returned true ended the walk, and so did the end of the
    chain.  [trace] lists the calls and [c'] is the context left. *)
Inductive walked (payload : UIEvent)
    : list CommandRegistration → UpdateCtx → list Invocation → UpdateCtx → Prop :=
| walked_end c :
    walked payload [] c [] c
| walked_handled r chain c c' :
    listener r payload c = (Returned true, c') →
    walked payload (r :: chain) c [mkInvocation (handle r) true] c'
| walked_passed r chain c c1 trace c' :
    listener r payload c = (Returned false, c1) →
    walked payload chain c1 trace c' →
    walked payload (r :: chain) c (mkInvocation (handle r) false :: trace) c'.

(** The handles in use are below the next handle to be given out. *)
Definition handlesInUse (editor : LexicalEditor) : Prop :=
  Forall (λ r, (handle r < _nextHandle editor)%nat) (_commands editor).

(** [a] is served no later than [b]. *)
Definition servedBefore (a b : CommandRegistration) : Prop :=
  listenerPriority b ≤ listenerPriority a.

(** An editor over the small document, with an error callback. *)
Definition nestedEditor : LexicalEditor :=
  mkEditor plainConfig (mkEditorState nestedTable NoSelection 0) [] 0 0 [].

(** A mutator that removes the hashtag "h" and then attempts a move that
    closes a cycle. *)
Definition removeThenBadMove : M unit :=
  remove (mkNode "h" (Some "b") (HashtagData (mkTextFields "#lexical" 0 normal 0)));;
  append (mkNode "b" (Some "a") (OverflowData ["h"]))
         (mkNode "a" (Some "root") (OverflowData ["b"])).

(** ** Deleting a selected horizontal rule *)

(** Every node of the table carries the key it is stored under. *)
Definition wellKeyed (tbl : gmap NodeKey LexicalNode) : Prop :=
  map_Forall (λ k n, __key n = k) tbl.

(** What C4 says of the Editor States before and after the dispatch, for
    the rule [rule] stored under [k]: the node is gone from the table;
    every other node is in the table as before, the parent of the removed
    node with [k] taken out of its child list; and the selection no longer
    selects [k]. *)
Definition removedExactly (k : NodeKey) (rule : LexicalNode)
    (before after : EditorState) : Prop :=
  nodeMap after !! k = None
  ∧ (∀ k', k' ≠ k →
       nodeMap after !! k'
       = if decide (__parent rule = Some k')
         then withoutChild k <$> nodeMap before !! k'
         else nodeMap before !! k')
  ∧ useLexicalNodeSelection.isNodeSelected (selection after) k = false.

(** A listener that, for this payload, returns false and leaves the
    context as it found it. *)
Definition passesUntouched (payload : UIEvent) (r : CommandRegistration) : Prop :=
  ∀ c, listener r payload c = (Returned false, c).

(** A document with two horizontal rules under the root, and editors over
    it: in the first only rule "1" is selected, in the second both are (a
    click on "1" and a shift-click on "2" select both). *)
Definition twoRules : gmap NodeKey LexicalNode :=
  {[ "root" := mkNode "root" None (RootData ["1"; "2"]);
     "1" := mkNode "1" (Some "root") HorizontalRuleData;
     "2" := mkNode "2" (Some "root") HorizontalRuleData ]}.

Definition oneSelectedEditor : LexicalEditor :=
  mkEditor plainConfig (mkEditorState twoRules (NodeSelection {[ "1" ]}) 0) [] 0 3 [].

Definition bothSelectedEditor : LexicalEditor :=
  mkEditor plainConfig (mkEditorState twoRules (NodeSelection {[ "1"; "2" ]}) 0) [] 0 3 [].

(** The same document with nothing selected. *)
Definition unselectedEditor : LexicalEditor :=
  mkEditor plainConfig (mkEditorState twoRules NoSelection 0) [] 0 3 [].

(** ** Conversions offered and listeners unregistered *)

(** The conversion that the map of a class offers for an element: the
    entry under the element's tag name, asked with the element.  This is
    the part of [importElement] that comes before the conversion runs. *)
Definition proposedConversion (map : option DOMConversionMap) (domNode : DOMNode)
    : option DOMConversion :=
  m ← map;
  propose ← m !! nodeName domNode;
  propose domNode.

(** The unregister functions of the given handles, each called once. *)
Definition unregisterAll (handles : list nat) (editor : LexicalEditor) : LexicalEditor :=
  foldr unregister editor handles.

(** The context that a write of [created] under its key leaves: the
    table holds the node, its key is dirty, and one key has been generated. *)
Definition afterCreation (created : LexicalNode) (c : UpdateCtx) : UpdateCtx :=
  mkCtx (<[__key created := created]> (_nodeMap c)) (_selection c)
        ({[__key created]} ∪ _dirty c) (N.succ (_keyCounter c)) (_effects c).

(** A document with a mention under the root and a range selection in it. *)
Definition mentionDocument : gmap NodeKey LexicalNode :=
  {[ "root" := mkNode "root" None (RootData ["3"; "4"]);
     "3" := mkNode "3" (Some "root")
              (MentionData "alice" (mkTextFields "alice" 0 segmented 1));
     "4" := mkNode "4" (Some "root") HorizontalRuleData ]}.

Definition caretInMention : UpdateCtx :=
  mkCtx mentionDocument (RangeSelection "3" 2 "3" 2) ∅ 5 [].

(** An editor over the document with the mention, the caret in the
    mention. *)
Definition caretEditor : LexicalEditor :=
  mkEditor plainConfig (mkEditorState mentionDocument (RangeSelection "3" 2 "3" 2) 0)
           [] 0 5 [].

(** A pasted span that is marked as a mention and has markup inside. *)
Definition nestedMentionSpan : DOMNode :=
  DOMElement "span" {[ "data-lexical-mention" := "false"; "class" := "chip" ]}
    [ DOMElement "b" ∅ [DOMText "al"]; DOMText "ice" ].

(** A mention whose text differs from the mention name, in bold (format
    bit 1), and a copy of it that differs in everything [clone] does not
    read. *)
Definition boldMention : LexicalNode :=
  mkNode "3" (Some "root") (MentionData "alice" (mkTextFields "@alice" 1 normal 0)).

Definition boldMentionElsewhere : LexicalNode :=
  mkNode "3" None (MentionData "alice" (mkTextFields "@alice" 0 segmented 1)).

(** Unfolds the monad operations in the goal. *)
Ltac unfold_M :=
  unfold mbind, M_bind, mret, M_ret, throw, getCtx, modifyCtx, getNodeByKey,
         getSelection in *.

(** * Theorems *)

(** ** Node classes *)

Example created_hashtag_node :
  (HashtagNode.createHashtagNode plainConfig (Some "#lexical") emptyCtx).1
  = Returned (mkNode "0" None (HashtagData (mkTextFields "#lexical" 0 normal 0))).
Proof. reflexivity. Qed.

Lemma applyNodeReplacement_none cfg node c :
  noReplacementFor cfg (getType node) →
  applyNodeReplacement cfg node c = (Returned node, c).
Proof.
  unfold noReplacementFor, applyNodeReplacement. intros ->. reflexivity.
Qed.

(** C3: every HashtagNode, the one created from the text "#lexical"
    included, reports [isTextEntity() = true] and
    [canInsertTextBefore() = false]. *)
Theorem hashtag_is_text_entity_and_refuses_text_before :
  (∀ this : LexicalNode,
     HashtagNode.isHashtagNode (Some this) = true →
     HashtagNode.isTextEntity this = true
     ∧ HashtagNode.canInsertTextBefore this = false)
  ∧ (∀ c, ∃ this c',
       HashtagNode.createHashtagNode plainConfig (Some "#lexical") c = (Returned this, c')
       ∧ HashtagNode.isHashtagNode (Some this) = true
       ∧ node__text this = "#lexical"
       ∧ HashtagNode.isTextEntity this = true
       ∧ HashtagNode.canInsertTextBefore this = false).
Proof.
  split.
  - intros this _. split; reflexivity.
  - intros c. eexists _, _. repeat split.
Qed.

(** C1 (as amended): in an editor that registers no replacement for the
    node's class, the static [clone] of HashtagNode, MentionNode,
    HorizontalRuleNode and OverflowNode returns a node of the same class
    whose key is the original's and, for the text classes, whose text and
    mention name are the original's. *)
Theorem clone_preserves_class_key_and_content
    (cfg : EditorConfig) (original : LexicalNode) (c : UpdateCtx) :
  noReplacementFor cfg (getType original) →
  clonePreservesNode cfg original c.
Proof.
  intros Hnone. destruct original as [key parent d].
  unfold clonePreservesNode, returnsCopyOf.
  destruct d as [cs | t | t | m t | | cs]; simpl; try exact I.
  - unfold HashtagNode.clone, HashtagNode.new, TextNode.constructor; simpl.
    unfold_M; simpl. rewrite applyNodeReplacement_none by exact Hnone.
    eexists _, _. repeat split.
  - unfold MentionNode.clone, MentionNode.new, TextNode.constructor; simpl.
    unfold_M; simpl. rewrite applyNodeReplacement_none by exact Hnone.
    eexists _, _. repeat split.
  - unfold HorizontalRuleNode.clone, HorizontalRuleNode.new,
      DecoratorNode.constructor; simpl.
    unfold_M; simpl. rewrite applyNodeReplacement_none by exact Hnone.
    eexists _, _. repeat split.
  - unfold OverflowNode.clone, OverflowNode.new, ElementNode.constructor; simpl.
    unfold_M; simpl. rewrite applyNodeReplacement_none by exact Hnone.
    eexists _, _. repeat split.
Qed.

Lemma clone_preserves_class_key_and_content_witness :
  noReplacementFor plainConfig (getType lexicalHashtag)
  ∧ clonePreservesNode plainConfig lexicalHashtag emptyCtx.
Proof.
  split; [reflexivity |].
  apply (clone_preserves_class_key_and_content plainConfig lexicalHashtag emptyCtx).
  reflexivity.
Defined.

(** C1 as stated fails: with a replacement registered for HashtagNode, the
    constructor that [clone] calls hands back the replacement, a node under
    a fresh key ("0") and not under the original's ("7"). *)
Lemma clone_under_replacement_loses_key :
  HashtagNode.clone replacingConfig lexicalHashtag emptyCtx
  = (Returned (mkNode "0" None (HashtagData (mkTextFields "#lexical" 0 normal 0))),
     mkCtx {[ "0" := mkNode "0" None (HashtagData (mkTextFields "#lexical" 0 normal 0)) ]}
           NoSelection {[ "0" ]} 1 [])
  ∧ ¬ clonePreservesNode replacingConfig lexicalHashtag emptyCtx.
Proof.
  split; [vm_compute; reflexivity |].
  unfold clonePreservesNode, returnsCopyOf; simpl.
  intros (copy & c' & Hrun & Hty & Hkey & _).
  assert (Hc : (HashtagNode.clone replacingConfig lexicalHashtag emptyCtx).1
               = Returned (mkNode "0" None (HashtagData (mkTextFields "#lexical" 0 normal 0))))
    by reflexivity.
  rewrite Hrun in Hc. simpl in Hc. injection Hc as ->. discriminate Hkey.
Qed.

(** With no replacement for MentionNode, the factory returns, whatever the
    context, the mention node it built, and the working table holds it. *)
Lemma createMentionNode_plain cfg mentionName c :
  noReplacementFor cfg "mention" →
  ∃ key c',
    MentionNode.createMentionNode cfg mentionName c
    = (Returned (mkNode key None
                   (MentionData mentionName (mkTextFields mentionName 0 segmented 1))), c')
    ∧ _nodeMap c' !! key
      = Some (mkNode key None
                (MentionData mentionName (mkTextFields mentionName 0 segmented 1))).
Proof.
  intros Hnone.
  unfold MentionNode.createMentionNode, MentionNode.new, TextNode.constructor,
    LexicalNode_constructor, assignInConstructor, generateKey, storeNode.
  unfold_M. simpl.
  rewrite applyNodeReplacement_none by exact Hnone.
  unfold TextNode.setMode, getWritable. unfold_M. simpl.
  rewrite lookup_insert_eq. simpl.
  unfold TextNode.toggleDirectionless, getWritable, storeNode. unfold_M. simpl.
  rewrite lookup_insert_eq. simpl.
  unfold readObject. unfold_M. simpl. rewrite lookup_insert_eq. simpl.
  eexists _, _. split; [reflexivity |].
  simpl. rewrite lookup_insert_eq. reflexivity.
Qed.

Lemma segmented_never_merges key parent mentionName text format detail other :
  let created := mkNode key parent
                   (MentionData mentionName (mkTextFields text format segmented detail)) in
  canMergeTextRuns created other = false ∧ canMergeTextRuns other created = false.
Proof.
  unfold canMergeTextRuns; simpl. split.
  - destruct (textFields other); reflexivity.
  - destruct (textFields other); [| reflexivity].
    rewrite andb_false_r. reflexivity.
Qed.

(** C8 (as amended): in an editor that registers no replacement for
    MentionNode, [$createMentionNode(mentionName)] returns a MentionNode in
    segmented mode that is directionless, whose mention name and text
    content both equal [mentionName], and which the merge rule of the
    reconciler never merges with an adjacent text run. *)
Theorem created_mention_is_segmented_and_directionless
    (cfg : EditorConfig) (mentionName : string) (c : UpdateCtx) :
  noReplacementFor cfg "mention" →
  ∃ created c',
    MentionNode.createMentionNode cfg mentionName c = (Returned created, c')
    ∧ createdMention mentionName created.
Proof.
  intros Hnone.
  destruct (createMentionNode_plain cfg mentionName c Hnone) as (key & c' & Hrun & _).
  eexists _, c'. split; [exact Hrun |].
  unfold createdMention. repeat split; apply segmented_never_merges.
Qed.

Lemma created_mention_is_segmented_and_directionless_witness :
  noReplacementFor plainConfig "mention"
  ∧ ∃ created c',
      MentionNode.createMentionNode plainConfig "alice" emptyCtx = (Returned created, c')
      ∧ createdMention "alice" created.
Proof.
  split; [reflexivity |].
  apply (created_mention_is_segmented_and_directionless plainConfig "alice" emptyCtx).
  reflexivity.
Defined.

(** C8 as stated fails: with MentionNode replaced by a subclass that shows
    the name after an at-sign, the factory returns a mention node whose
    text content is not the [mentionName] argument. *)
Lemma created_mention_under_replacement_has_other_text :
  (MentionNode.createMentionNode replacingConfig "alice" emptyCtx).1
  = Returned (mkNode "1" None (MentionData "alice" (mkTextFields "@alice" 0 segmented 1)))
  ∧ ¬ (∃ created c',
         MentionNode.createMentionNode replacingConfig "alice" emptyCtx
         = (Returned created, c')
         ∧ createdMention "alice" created).
Proof.
  split; [vm_compute; reflexivity |].
  intros (created & c' & Hrun & Hc).
  assert (Hv : (MentionNode.createMentionNode replacingConfig "alice" emptyCtx).1
               = Returned (mkNode "1" None
                             (MentionData "alice" (mkTextFields "@alice" 0 segmented 1))))
    by (vm_compute; reflexivity).
  rewrite Hrun in Hv. simpl in Hv. injection Hv as ->.
  destruct Hc as (_ & _ & _ & _ & Htext & _). discriminate Htext.
Qed.

(** ** Export and import of the DOM representation *)

Lemma append_empty_r (s : string) : s +:+ "" = s.
Proof.
  induction s as [| a s IH]; [reflexivity |].
  change (String a s +:+ "") with (String a (s +:+ "")). by rewrite IH.
Qed.

(** The text content of the span that [MentionNode.exportDOM] builds is
    the node's text. *)
Lemma exported_span_textContent (this : LexicalNode) :
  textContent (element (MentionNode.exportDOM this)) = Some (node__text this).
Proof.
  unfold MentionNode.exportDOM, set_textContent, setAttribute, createElement; simpl.
  destruct (decide (node__text this = "")) as [-> | Hne]; simpl; [reflexivity |].
  by rewrite append_empty_r.
Qed.

Lemma exported_span_is_recognised (cfg : EditorConfig) (this : LexicalNode) c :
  importElement (MentionNode.importDOM cfg) (element (MentionNode.exportDOM this)) c
  = MentionNode.convertMentionElement cfg (element (MentionNode.exportDOM this)) c.
Proof.
  unfold importElement, MentionNode.importDOM.
  replace (nodeName (element (MentionNode.exportDOM this))) with "span" by reflexivity.
  rewrite lookup_singleton_eq.
  replace (hasAttribute "data-lexical-mention" (element (MentionNode.exportDOM this)))
    with true; [reflexivity |].
  unfold MentionNode.exportDOM, set_textContent, setAttribute, createElement; simpl.
  symmetry. apply bool_decide_eq_true. rewrite lookup_insert_eq. by eexists.
Qed.

(** A span without the [data-lexical-mention] attribute is not taken for a
    mention, whatever its text; nor is an element of another tag. *)
Lemma other_spans_are_not_mentions (cfg : EditorConfig) (domNode : DOMNode) c :
  hasAttribute "data-lexical-mention" domNode = false →
  importElement (MentionNode.importDOM cfg) domNode c = (Returned None, c).
Proof.
  intros Hattr. unfold importElement, MentionNode.importDOM.
  destruct (decide (nodeName domNode = "span")) as [-> | Hne].
  - rewrite lookup_singleton_eq, Hattr. reflexivity.
  - rewrite lookup_singleton_ne by done. reflexivity.
Qed.

(** The conversions carry the priorities of the source: 1 for the mention
    span, 0 for the horizontal rule. *)
Example conversion_priorities :
  (m ← MentionNode.importDOM plainConfig;
   propose ← m !! "span";
   conv ← propose (element (MentionNode.exportDOM aliceMention));
   Some (priority conv)) = Some 1
  ∧ (m ← HorizontalRuleNode.importDOM plainConfig;
     propose ← m !! "hr";
     conv ← propose (createElement "hr");
     Some (priority conv)) = Some 0.
Proof. split; vm_compute; reflexivity. Qed.

(** C2 (as amended): in an editor that registers no replacement for the
    class, the import conversion of MentionNode applied to the span its
    [exportDOM] built yields a MentionNode with the original's text
    content, and the import conversion of HorizontalRuleNode applied to the
    exported [hr] element yields a HorizontalRuleNode. *)
Theorem import_of_export_yields_same_class_and_text
    (cfg : EditorConfig) (original : LexicalNode) (c : UpdateCtx) :
  noReplacementFor cfg (getType original) →
  roundTrips cfg original c.
Proof.
  intros Hnone. destruct original as [key parent d]. unfold roundTrips.
  destruct d as [cs | t | t | m t | | cs]; cbn [data]; try exact I.
  - set (original := mkNode key parent (MentionData m t)) in *.
    rewrite exported_span_is_recognised.
    unfold MentionNode.convertMentionElement.
    rewrite exported_span_textContent.
    destruct (createMentionNode_plain cfg (node__text original) c Hnone)
      as (k & c' & Hrun & _).
    unfold_M. rewrite Hrun. eexists _, c'. split; [reflexivity |].
    split; reflexivity.
  - unfold importElement, HorizontalRuleNode.importDOM,
      HorizontalRuleNode.exportDOM; simpl.
    rewrite lookup_singleton_eq. simpl.
    unfold HorizontalRuleNode.convertHorizontalRuleElement,
      HorizontalRuleNode.createHorizontalRuleNode, HorizontalRuleNode.new,
      DecoratorNode.constructor, LexicalNode_constructor, generateKey, storeNode.
    unfold_M. simpl. rewrite applyNodeReplacement_none by exact Hnone.
    eexists _, _. split; [reflexivity |]. split; reflexivity.
Qed.

Lemma import_of_export_yields_same_class_and_text_witness :
  noReplacementFor plainConfig (getType aliceMention)
  ∧ roundTrips plainConfig aliceMention emptyCtx.
Proof.
  split; [reflexivity |].
  apply (import_of_export_yields_same_class_and_text plainConfig aliceMention emptyCtx).
  reflexivity.
Defined.

(** C2 as stated fails: with MentionNode replaced by a subclass that shows
    the name after an at-sign, importing the span exported for the mention
    "alice" yields a mention node whose text is "@alice". *)
Lemma import_of_export_under_replacement_changes_text :
  (importElement (MentionNode.importDOM replacingConfig)
                 (element (MentionNode.exportDOM aliceMention)) emptyCtx).1
  = Returned (Some (mkOutput
      (mkNode "1" None (MentionData "alice" (mkTextFields "@alice" 0 segmented 1)))))
  ∧ ¬ roundTrips replacingConfig aliceMention emptyCtx.
Proof.
  split; [vm_compute; reflexivity |].
  intros H.
  assert (H' : ∃ out c',
             importElement (MentionNode.importDOM replacingConfig)
                           (element (MentionNode.exportDOM aliceMention)) emptyCtx
             = (Returned (Some out), c')
             ∧ MentionNode.isMentionNode (Some (node out)) = true
             ∧ TextNode.getTextContent (node out) = "alice") by exact H.
  destruct H' as (out & c' & Hrun & _ & Htext).
  assert (Hv : (importElement (MentionNode.importDOM replacingConfig)
                   (element (MentionNode.exportDOM aliceMention)) emptyCtx).1
               = Returned (Some (mkOutput
                   (mkNode "1" None
                      (MentionData "alice" (mkTextFields "@alice" 0 segmented 1))))))
    by (vm_compute; reflexivity).
  rewrite Hrun in Hv. simpl in Hv. injection Hv as ->. discriminate Htext.
Qed.

(** The content copied from a subtree holds, in document order, the nodes
    of the subtree that do not exclude themselves. *)
Lemma copied_nodes_are_those_not_excluded inherited fuel tbl k :
  flat_map copiedTypes (copyNode inherited fuel tbl k)
  = getType <$> filter (λ n, excludeFromCopy inherited n = false)
                       (subtreeNodes fuel tbl k).
Proof.
  revert k. induction fuel as [| fuel IH]; intros k; [reflexivity |].
  cbn [copyNode subtreeNodes]. destruct (tbl !! k) as [n |]; [| reflexivity].
  assert (Hchildren : ∀ keys,
            flat_map copiedTypes (flat_map (copyNode inherited fuel tbl) keys)
            = getType <$> filter (λ n, excludeFromCopy inherited n = false)
                                 (flat_map (subtreeNodes fuel tbl) keys)).
  { induction keys as [| key keys IHkeys]; [reflexivity |].
    cbn [flat_map]. rewrite flat_map_app, filter_app, fmap_app, IH, IHkeys.
    reflexivity. }
  destruct (excludeFromCopy inherited n) eqn:Hexcl.
  - rewrite filter_cons_False by (rewrite Hexcl; discriminate). apply Hchildren.
  - rewrite filter_cons_True by exact Hexcl.
    cbn [flat_map copiedTypes fmap list_fmap]. rewrite app_nil_r, Hchildren.
    reflexivity.
Qed.

(** The document of the nested overflow nodes is copied without them:
    the hashtag moves up to the root. *)
Example copy_of_nested_overflow :
  copySubtree (λ _, false) nestedTable "root"
  = [Copied "root" "" [Copied "hashtag" "#lexical" []]].
Proof. vm_compute. reflexivity. Qed.

(** C9: [excludeFromCopy()] of every OverflowNode is true and the static
    [importDOM()] is null.  So the import of an external document finds no
    conversion that makes an OverflowNode, and the content copied or
    exported from any subtree of any document holds no overflow node: it
    holds the nodes that do not exclude themselves, those below an overflow
    node included. *)
Theorem overflow_is_excluded_from_copy_and_has_no_import :
  (∀ this : LexicalNode, OverflowNode.excludeFromCopy this = true)
  ∧ OverflowNode.importDOM = None
  ∧ (∀ (domNode : DOMNode) (c : UpdateCtx),
       importElement OverflowNode.importDOM domNode c = (Returned None, c))
  ∧ (∀ inherited fuel tbl k,
       OverflowNode.getType ∉ flat_map copiedTypes (copyNode inherited fuel tbl k))
  ∧ (∀ inherited tbl k,
       OverflowNode.getType ∉ flat_map copiedTypes (copySubtree inherited tbl k))
  ∧ (∀ inherited fuel tbl k,
       flat_map copiedTypes (copyNode inherited fuel tbl k)
       = getType <$> filter (λ n, excludeFromCopy inherited n = false)
                            (subtreeNodes fuel tbl k)).
Proof.
  assert (Hnone : ∀ inherited fuel tbl k,
            OverflowNode.getType ∉ flat_map copiedTypes (copyNode inherited fuel tbl k)).
  { intros inherited fuel tbl k. rewrite copied_nodes_are_those_not_excluded.
    intros Hin. apply list_elem_of_fmap in Hin as (n & Htype & Hn).
    apply list_elem_of_filter in Hn as [Hexcl _].
    unfold excludeFromCopy in Hexcl. unfold getType in Htype.
    destruct (data n); try discriminate Htype. discriminate Hexcl. }
  split; [| split; [| split; [| split; [| split]]]].
  - intros this. reflexivity.
  - reflexivity.
  - intros domNode c. reflexivity.
  - exact Hnone.
  - intros inherited tbl k. apply Hnone.
  - apply copied_nodes_are_those_not_excluded.
Qed.

(** ** Reconciler decisions *)

(** C10: [updateDOM] of HorizontalRuleNode and of OverflowNode returns
    false on every input, so for a key present in the previous and in the
    next Editor State whose next node is of one of these classes the
    reconciler updates in place and never replaces the DOM element. *)
Theorem rule_and_overflow_never_ask_for_dom_replacement :
  (∀ this : LexicalNode, HorizontalRuleNode.updateDOM this = false)
  ∧ (∀ (this prevNode : LexicalNode) (dom : DOMNode),
       OverflowNode.updateDOM this prevNode dom = false)
  ∧ (∀ inherited prev next dom key prevNode nextNode,
       nodeMap prev !! key = Some prevNode →
       nodeMap next !! key = Some nextNode →
       HorizontalRuleNode.isHorizontalRuleNode (Some nextNode) = true
       ∨ OverflowNode.isOverflowNode (Some nextNode) = true →
       reconcileNode inherited prev next dom key = UpdateInPlace).
Proof.
  split; [| split].
  - intros this. reflexivity.
  - intros this prevNode dom. reflexivity.
  - intros inherited prev next dom key prevNode nextNode Hprev Hnext Hclass.
    unfold reconcileNode. rewrite Hprev, Hnext. unfold updateDOM.
    destruct nextNode as [k p d]. simpl in *.
    destruct d; simpl in *; try reflexivity; destruct Hclass; discriminate.
Qed.

(** ** Structural moves *)

Section Descendants.

Variable tbl : gmap NodeKey LexicalNode.
Variable anc : NodeKey.

Lemma descendant_reaches k :
  descendantOrSelf tbl anc k → ∃ n, reaches tbl anc n k.
Proof.
  induction 1 as [n Hn | k n p Hk Hp _ [m IH]].
  - exists 0%nat. simpl. eauto.
  - destruct (decide (k = anc)) as [-> | Hne].
    + exists 0%nat. simpl. eauto.
    + exists (S m). simpl. eauto 10.
Qed.

Lemma reaches_deterministic n m k :
  reaches tbl anc n k → reaches tbl anc m k → n = m.
Proof.
  revert m k. induction n as [| n IH]; intros [| m] k; simpl.
  - done.
  - intros [-> _] [Hne _]. done.
  - intros [Hne _] [-> _]. done.
  - intros (_ & x & p & Hx & Hp & Hr) (_ & x' & p' & Hx' & Hp' & Hr').
    rewrite Hx in Hx'. injection Hx' as <-. rewrite Hp in Hp'. injection Hp' as <-.
    f_equal. by apply (IH m p).
Qed.

Lemma reaches_live n k : reaches tbl anc n k → is_Some (tbl !! k).
Proof. destruct n; simpl; [tauto |]. intros (_ & x & p & Hx & _). eauto. Qed.

(** The keys on the walk are pairwise different live keys, one more than
    the walk has links. *)
Lemma reaches_keys n k :
  reaches tbl anc n k →
  ∃ keys : gset NodeKey,
    keys ⊆ dom tbl ∧ size keys = S n
    ∧ ∀ v, v ∈ keys → ∃ m, (m ≤ n)%nat ∧ reaches tbl anc m v.
Proof.
  revert k. induction n as [| n IH]; intros k Hr.
  - exists {[k]}. split; [| split].
    + apply singleton_subseteq_l, elem_of_dom. by destruct Hr.
    + apply size_singleton.
    + intros v ->%elem_of_singleton. exists 0%nat. done.
  - pose proof Hr as (Hne & x & p & Hx & Hp & Hrp).
    destruct (IH p Hrp) as (keys & Hsub & Hsize & Hall).
    assert (Hfresh : k ∉ keys).
    { intros Hin. destruct (Hall k Hin) as (m & Hm & Hrm).
      pose proof (reaches_deterministic _ _ _ Hrm Hr). lia. }
    exists ({[k]} ∪ keys). split; [| split].
    + apply union_subseteq. split; [| done].
      apply singleton_subseteq_l, elem_of_dom. eauto.
    + rewrite size_union by set_solver. rewrite size_singleton. lia.
    + intros v [->%elem_of_singleton | Hin]%elem_of_union.
      * exists (S n). done.
      * destruct (Hall v Hin) as (m & Hm & Hrm). exists m. split; [lia | done].
Qed.

Lemma reaches_within_size n k : reaches tbl anc n k → (n < size tbl)%nat.
Proof.
  intros Hr. destruct (reaches_keys n k Hr) as (keys & Hsub & Hsize & _).
  apply subseteq_size in Hsub. rewrite size_dom in Hsub. lia.
Qed.

Lemma reaches_found n k fuel :
  reaches tbl anc n k → (n < fuel)%nat → hasAncestorOrSelf fuel tbl anc k = true.
Proof.
  revert k fuel. induction n as [| n IH]; intros k [| fuel] Hr Hlt; try lia; simpl.
  - destruct Hr as [-> [x Hx]]. rewrite Hx. by rewrite decide_True.
  - destruct Hr as (Hne & x & p & Hx & Hp & Hrp).
    rewrite Hx, decide_False, Hp by done. apply (IH p fuel Hrp). lia.
Qed.

(** The walk finds every descendant: the table's size is fuel enough. *)
Lemma isDescendantOrSelf_complete k :
  descendantOrSelf tbl anc k → isDescendantOrSelf tbl anc k = true.
Proof.
  intros [n Hr]%descendant_reaches.
  apply (reaches_found n); [done |]. by apply (reaches_within_size n k).
Qed.

(** The walk finds descendants only. *)
Lemma hasAncestorOrSelf_sound fuel k :
  hasAncestorOrSelf fuel tbl anc k = true → descendantOrSelf tbl anc k.
Proof.
  revert k. induction fuel as [| fuel IH]; intros k; simpl; [done |].
  destruct (tbl !! k) as [x |] eqn:Hx; [| done].
  destruct (decide (k = anc)) as [-> | Hne].
  - intros _. by eapply descendant_self.
  - destruct (__parent x) as [p |] eqn:Hp; [| done].
    intros Hw. eapply descendant_child; eauto.
Qed.

(** The cycle check decides the descendant relation. *)
Lemma isDescendantOrSelf_spec k :
  isDescendantOrSelf tbl anc k = true ↔ descendantOrSelf tbl anc k.
Proof.
  split; [apply hasAncestorOrSelf_sound | apply isDescendantOrSelf_complete].
Qed.

End Descendants.

(** C7: a structural move ([append], [insertAfter], [insertBefore],
    [replace]) whose target is the moved node itself or one of its
    descendants fails with InvalidMoveError, and the working context, the
    node table with it, is what it was before the call. *)
Theorem move_into_own_subtree_fails
    (kind : MoveKind) (this nodeToMove : LexicalNode) (c : UpdateCtx) :
  descendantOrSelf (_nodeMap c) (__key nodeToMove) (__key this) →
  moveNode kind this nodeToMove c = (Thrown InvalidMoveError, c).
Proof.
  intros Hdesc.
  assert (Hthis : is_Some (_nodeMap c !! __key this)).
  { inversion Hdesc; subst; eauto. }
  assert (Hmoved : is_Some (_nodeMap c !! __key nodeToMove)).
  { clear Hthis. induction Hdesc; eauto. }
  destruct Hthis as [target Htarget], Hmoved as [moved Hmoved].
  unfold moveNode. unfold_M. rewrite Htarget, Hmoved.
  by rewrite (isDescendantOrSelf_complete _ _ _ Hdesc).
Qed.

(** The check refuses cycles only: an append of a live node to a live
    element that is neither the node nor below it goes through. *)
Lemma append_outside_own_subtree_returns
    (this nodeToAppend target moved : LexicalNode) (c : UpdateCtx) :
  _nodeMap c !! __key this = Some target →
  _nodeMap c !! __key nodeToAppend = Some moved →
  isElementNode target = true →
  ¬ descendantOrSelf (_nodeMap c) (__key nodeToAppend) (__key this) →
  ∃ c', append this nodeToAppend c = (Returned tt, c').
Proof.
  intros Htarget Hmoved Helement Hnot.
  unfold append, moveNode. unfold_M. rewrite Htarget, Hmoved.
  destruct (isDescendantOrSelf _ _ _) eqn:Hcheck.
  - by apply isDescendantOrSelf_spec in Hcheck.
  - rewrite Helement. eauto.
Qed.

Lemma move_into_own_subtree_fails_witness :
  descendantOrSelf (_nodeMap nestedCtx) "a" "b"
  ∧ append (mkNode "b" (Some "a") (OverflowData ["h"]))
           (mkNode "a" (Some "root") (OverflowData ["b"])) nestedCtx
    = (Thrown InvalidMoveError, nestedCtx).
Proof.
  assert (H : descendantOrSelf (_nodeMap nestedCtx) "a" "b").
  { eapply descendant_child; [reflexivity | reflexivity |].
    eapply descendant_self. reflexivity. }
  split; [exact H |].
  exact (move_into_own_subtree_fails Append
           (mkNode "b" (Some "a") (OverflowData ["h"]))
           (mkNode "a" (Some "root") (OverflowData ["b"])) nestedCtx H).
Defined.

(** A move that closes no cycle goes through: the hashtag "h" is appended
    to the root. *)
Example append_outside_own_subtree :
  (append (mkNode "root" None (RootData ["a"]))
          (mkNode "h" (Some "b") (HashtagData (mkTextFields "#lexical" 0 normal 0)))
          nestedCtx).1 = Returned tt
  ∧ getChildrenKeys
      <$> (_nodeMap (append (mkNode "root" None (RootData ["a"]))
                       (mkNode "h" (Some "b")
                          (HashtagData (mkTextFields "#lexical" 0 normal 0)))
                       nestedCtx).2 !! "root")
    = Some ["a"; "h"].
Proof. split; vm_compute; reflexivity. Qed.

(** ** Command dispatch *)

Lemma insertByPriority_Permutation r l : insertByPriority r l ≡ₚ r :: l.
Proof.
  induction l as [| x l IH]; simpl; [done |].
  case_decide; [done |]. rewrite IH. apply Permutation_swap.
Qed.

Lemma sortByPriority_Permutation l : sortByPriority l ≡ₚ l.
Proof.
  induction l as [| x l IH]; simpl; [done |].
  by rewrite insertByPriority_Permutation, IH.
Qed.

Lemma insertByPriority_sorted r l :
  StronglySorted servedBefore l → StronglySorted servedBefore (insertByPriority r l).
Proof.
  induction 1 as [| x l Hsorted IH Hall]; simpl.
  - repeat constructor.
  - case_decide as Hle.
    + constructor; [by constructor |].
      constructor; [exact Hle |].
      eapply Forall_impl; [exact Hall |]. unfold servedBefore. intros y Hy. lia.
    + constructor; [exact IH |].
      rewrite insertByPriority_Permutation.
      constructor; [unfold servedBefore; lia | exact Hall].
Qed.

Lemma sortByPriority_sorted l : StronglySorted servedBefore (sortByPriority l).
Proof.
  induction l as [| x l IH]; simpl; [constructor |].
  by apply insertByPriority_sorted.
Qed.

(** Among equal priorities the order of registration is kept. *)
Lemma sortByPriority_equal_priorities p l :
  Forall (λ r, listenerPriority r = p) l → sortByPriority l = l.
Proof.
  induction 1 as [| x l Hx Hall IH]; simpl; [done |].
  rewrite IH. destruct Hall as [| y l Hy _]; simpl; [done |].
  rewrite decide_True by lia. done.
Qed.

Lemma runListeners_walked payload chain c trace c' :
  runListeners chain payload c = (Returned trace, c') →
  walked payload chain c trace c'
  ∧ invoked <$> trace `prefix_of` handle <$> chain
  ∧ (∀ i inv, trace !! i = Some inv → returned inv = true → S i = length trace)
  ∧ (existsb returned trace = false → length trace = length chain).
Proof.
  revert c trace. induction chain as [| r chain IH]; intros c trace; simpl.
  - unfold_M. intros [= <- <-]. split; [| split; [| split]].
    + constructor.
    + done.
    + intros i inv Hi. by rewrite lookup_nil in Hi.
    + done.
  - unfold_M. destruct (listener r payload c) as [[[|] | e] c1] eqn:Hr.
    + intros [= <- <-]. split; [| split; [| split]].
      * by constructor.
      * simpl. by apply prefix_cons, prefix_nil.
      * intros [| i] inv; simpl; [done |]. by rewrite lookup_nil.
      * done.
    + destruct (runListeners chain payload c1) as [[rest | e] c2] eqn:Hrest;
        intros [= <- <-].
      destruct (IH _ _ Hrest) as (Hw & Hpre & Hlast & Hall).
      split; [| split; [| split]].
      * by econstructor.
      * simpl. by apply prefix_cons.
      * intros [| i] inv; simpl.
        -- intros [= <-]. done.
        -- intros Hi Htrue. f_equal. by apply (Hlast i inv).
      * simpl. intros Hnone. f_equal. by apply Hall.
    + intros [=].
Qed.

(** A registered listener is on the chain of its command, and calling the
    unregister handle takes it off again. *)
Lemma registerCommand_then_unregister type handler priority editor :
  handlesInUse editor →
  let '(registered, h) := registerCommand type handler priority editor in
  listenersFor (_commands registered) type
    ≡ₚ mkRegistration type handler priority h :: listenersFor (_commands editor) type
  ∧ _commands (unregister h registered) = _commands editor.
Proof.
  intros Hfresh. simpl. split.
  - unfold listenersFor. rewrite !sortByPriority_Permutation.
    rewrite filter_app, filter_cons_True by done.
    by rewrite Permutation_app_comm.
  - rewrite filter_app, filter_cons_False by tauto.
    simpl. rewrite app_nil_r. unfold handlesInUse in Hfresh.
    induction Hfresh as [| r regs Hr _ IH]; [done |].
    rewrite filter_cons_True by lia. by rewrite IH.
Qed.

(** C5: a dispatch walks the listeners registered for the command from
    the highest priority to the lowest; a listener that returns false does
    not stop the walk, the first that returns true does, and the dispatch
    reports whether one did. *)
Theorem dispatch_walks_by_priority_until_handled
    (regs : list CommandRegistration) (type : LexicalCommand) (payload : UIEvent)
    (c : UpdateCtx) :
  let chain := listenersFor regs type in
  StronglySorted servedBefore chain
  ∧ chain ≡ₚ filter (λ r, command r = type) regs
  ∧ (∀ handled c',
       triggerCommandListeners regs type payload c = (Returned handled, c') →
       ∃ trace,
         walked payload chain c trace c'
         ∧ handled = existsb returned trace
         ∧ invoked <$> trace `prefix_of` handle <$> chain
         ∧ (∀ i inv, trace !! i = Some inv → returned inv = true → S i = length trace)
         ∧ (handled = false → length trace = length chain))
  ∧ ((∀ r c0, r ∈ chain → ∃ b c1, listener r payload c0 = (Returned b, c1)) →
     ∃ handled c', triggerCommandListeners regs type payload c = (Returned handled, c')).
Proof.
  intros chain. split; [apply sortByPriority_sorted |].
  split; [apply sortByPriority_Permutation |]. split.
  - intros handled c'. unfold triggerCommandListeners. unfold_M.
    fold chain.
    destruct (runListeners chain payload c) as [[trace | e] c1] eqn:Hrun;
      intros [= <- <-].
    destruct (runListeners_walked _ _ _ _ _ Hrun) as (Hw & Hpre & Hlast & Hall).
    exists trace. split; [| split; [| split; [| split]]]; done.
  - intros Hreturns. unfold triggerCommandListeners. unfold_M. fold chain.
    assert (Hrun : ∃ trace c1, runListeners chain payload c = (Returned trace, c1)).
    { clear -Hreturns. revert c. induction chain as [| r chain' IH]; intros c; simpl.
      - unfold_M. eauto.
      - unfold_M.
        destruct (Hreturns r c) as (b & c1 & ->); [by left |].
        destruct b; [eauto |].
        destruct (IH (λ r0 c0 Hin, Hreturns r0 c0 (list_elem_of_further _ _ _ Hin)) c1)
          as (trace & c2 & ->). eauto. }
    destruct Hrun as (trace & c1 & ->). eauto.
Qed.

(** Three listeners for one command, registered at priorities 0, 4 and 1:
    the dispatch calls the one at 4, which passes, then the one at 1, which
    handles the command; the one at 0 is not called. *)
Example dispatch_order_by_priority :
  let regs := [ mkRegistration KEY_DELETE_COMMAND (λ _, mret true) 0 10;
                mkRegistration KEY_DELETE_COMMAND (λ _, mret false) 4 11;
                mkRegistration CLICK_COMMAND (λ _, mret true) 4 12;
                mkRegistration KEY_DELETE_COMMAND (λ _, mret true) 1 13 ] in
  handle <$> listenersFor regs KEY_DELETE_COMMAND = [11; 13; 10]%nat
  ∧ runListeners (listenersFor regs KEY_DELETE_COMMAND) (mkEvent None false) emptyCtx
    = (Returned [mkInvocation 11 false; mkInvocation 13 true], emptyCtx)
  ∧ triggerCommandListeners regs KEY_DELETE_COMMAND (mkEvent None false) emptyCtx
    = (Returned true, emptyCtx).
Proof. repeat split. Qed.

(** ** Transactions *)

(** C6: when the mutator of a transaction throws, the working table is
    discarded: the editor's current Editor State is the prior one,
    unchanged, so the next transaction starts from it and sees nothing of
    what the mutator did before the throw; nothing is reconciled; and the
    error is handed to the configured error callback. *)
Theorem failed_transaction_keeps_prior_state
    (editor : LexicalEditor) (mutatorFn : M unit) (e : LexicalError) (c : UpdateCtx) :
  mutatorFn (beginUpdate editor) = (Thrown e, c) →
  onError (_config editor) = true →
  _editorState (update editor mutatorFn) = _editorState editor
  ∧ _nodeMap (beginUpdate (update editor mutatorFn)) = nodeMap (_editorState editor)
  ∧ _selection (beginUpdate (update editor mutatorFn)) = selection (_editorState editor)
  ∧ _events (update editor mutatorFn) = (_events editor ++ [ErrorCallback e])%list.
Proof.
  intros Hthrow Hcallback. unfold update. rewrite Hthrow. simpl.
  rewrite Hcallback. repeat split.
Qed.

Lemma failed_transaction_keeps_prior_state_witness :
  _nodeMap (removeThenBadMove (beginUpdate nestedEditor)).2 !! "h" = None
  ∧ _editorState (update nestedEditor removeThenBadMove) = _editorState nestedEditor
  ∧ _events (update nestedEditor removeThenBadMove) = [ErrorCallback InvalidMoveError].
Proof.
  split; [vm_compute; reflexivity |].
  pose proof (failed_transaction_keeps_prior_state nestedEditor removeThenBadMove
                InvalidMoveError (removeThenBadMove (beginUpdate nestedEditor)).2) as H.
  destruct H as (Hstate & _ & _ & Hevents).
  - vm_compute; reflexivity.
  - reflexivity.
  - split; [exact Hstate | exact Hevents].
Defined.

(** A transaction whose mutator changes nothing leaves the Editor State
    as it is and hands nothing to the reconciler. *)
Lemma idle_transaction_changes_nothing (editor : LexicalEditor) :
  selectionKeys (selection (_editorState editor))
    ⊆ dom (nodeMap (_editorState editor)) →
  _editorState (update editor (mret tt)) = _editorState editor
  ∧ _events (update editor (mret tt)) = _events editor.
Proof.
  intros Hlive. unfold update, commit, validateSelection. unfold_M.
  cbn [beginUpdate _nodeMap _selection _dirty _keyCounter _effects].
  rewrite (decide_True (P := selectionKeys _ ⊆ _)) by exact Hlive.
  rewrite decide_True by done. done.
Qed.

(** Without an error callback the error reaches the host uncaught; the
    prior Editor State stays all the same. *)
Lemma failed_transaction_without_callback
    (editor : LexicalEditor) (mutatorFn : M unit) (e : LexicalError) (c : UpdateCtx) :
  mutatorFn (beginUpdate editor) = (Thrown e, c) →
  onError (_config editor) = false →
  _editorState (update editor mutatorFn) = _editorState editor
  ∧ _events (update editor mutatorFn) = (_events editor ++ [UncaughtError e])%list.
Proof.
  intros Hthrow Hcallback. unfold update. rewrite Hthrow. simpl.
  rewrite Hcallback. repeat split.
Qed.

(** A mutator that returns commits its writes: the removal of "h" shows in
    the next Editor State. *)
Example committed_transaction_changes_state :
  let h := mkNode "h" (Some "b") (HashtagData (mkTextFields "#lexical" 0 normal 0)) in
  nodeMap (_editorState (update nestedEditor (remove h))) !! "h" = None
  ∧ getChildrenKeys <$> nodeMap (_editorState (update nestedEditor (remove h))) !! "b"
    = Some []
  ∧ version (_editorState (update nestedEditor (remove h))) = 1%N.
Proof. repeat split; vm_compute; reflexivity. Qed.

(** ** Deleting a selected horizontal rule *)

Section Delete.

Import HorizontalRuleNode.

Lemma onDelete_unselected self payload c :
  isSelected self = false → onDelete self payload c = (Returned false, c).
Proof. intros H. unfold onDelete. unfold_M. by rewrite H. Qed.

Lemma rule_has_no_children n :
  isHorizontalRuleNode (Some n) = true → getChildrenKeys n = [].
Proof. destruct n as [k p []]; simpl; done. Qed.

Lemma withoutChild_rule k n :
  isHorizontalRuleNode (Some n) = true → withoutChild k n = n.
Proof. destruct n as [k' p []]; simpl; done. Qed.

Lemma detached_rule_stays k n tbl :
  tbl !! k = Some n → isHorizontalRuleNode (Some n) = true →
  detachFromParent k n tbl !! k = Some n.
Proof.
  intros Hk Hrule. unfold detachFromParent.
  destruct (__parent n) as [p |]; [| done].
  rewrite lookup_alter. case_decide as Hp; [| done].
  subst p. rewrite Hk. simpl. by rewrite withoutChild_rule.
Qed.

Lemma size_of_inhabited (tbl : gmap NodeKey LexicalNode) k n :
  tbl !! k = Some n → ∃ fuel, size tbl = S fuel.
Proof.
  intros Hk. destruct (size tbl) as [| fuel] eqn:Hsize; [| eauto].
  apply map_size_empty_inv in Hsize. subst tbl. by rewrite lookup_empty in Hk.
Qed.

Lemma evict_rule fuel k n tbl :
  tbl !! k = Some n → isHorizontalRuleNode (Some n) = true →
  evictSubtree (S fuel) k tbl = delete k tbl.
Proof.
  intros Hk Hrule. simpl. rewrite Hk. by rewrite rule_has_no_children.
Qed.

Lemma remove_rule n c :
  _nodeMap c !! __key n = Some n →
  isHorizontalRuleNode (Some n) = true →
  remove n c
  = (Returned tt,
     mkCtx (delete (__key n) (detachFromParent (__key n) n (_nodeMap c)))
           (_selection c) (({[__key n]} ∪ parentKeys n) ∪ _dirty c)
           (_keyCounter c) (_effects c)).
Proof.
  intros Hk Hrule. unfold remove. unfold_M. rewrite Hk.
  unfold withDirty, withNodeMap. cbn [_nodeMap _selection _dirty _keyCounter _effects].
  destruct (size_of_inhabited _ _ _ Hk) as [fuel ->].
  rewrite (evict_rule fuel (__key n) n) by (by try apply detached_rule_stays).
  reflexivity.
Qed.

(** The listener of the selected component, run under a Node-selection on
    a live rule: the rule is removed and unselected; the listener passes
    the command on. *)
Lemma onDelete_selected_rule k n keys payload c :
  _selection c = NodeSelection keys →
  _nodeMap c !! k = Some n → __key n = k →
  isHorizontalRuleNode (Some n) = true →
  onDelete (mkComponent k true) payload c
  = (Returned false,
     mkCtx (delete k (detachFromParent k n (_nodeMap c)))
           (NodeSelection (keys ∖ {[k]}))
           (({[k]} ∪ parentKeys n) ∪ _dirty c)
           (_keyCounter c)
           (_effects c ++ [PreventDefault])).
Proof.
  intros Hsel Hk <- Hrule. unfold onDelete. unfold_M.
  cbn [isSelected nodeKey]. rewrite Hsel. cbn [isNodeSelection andb].
  unfold preventDefault. unfold_M.
  cbn [_nodeMap _selection _dirty _keyCounter _effects].
  rewrite Hk, Hrule.
  rewrite remove_rule by done.
  unfold useLexicalNodeSelection.setSelected. unfold_M. unfold withSelection.
  cbn [_nodeMap _selection _dirty _keyCounter _effects]. rewrite Hsel.
  reflexivity.
Qed.

Lemma runListeners_one_acts payload chain1 r chain2 c c' :
  Forall (passesUntouched payload) (chain1 ++ chain2)%list →
  listener r payload c = (Returned false, c') →
  ∃ trace, runListeners (chain1 ++ r :: chain2)%list payload c = (Returned trace, c')
           ∧ existsb returned trace = false.
Proof.
  intros [H1 H2]%Forall_app Hr.
  assert (Htail : ∀ c0, ∃ trace, runListeners chain2 payload c0 = (Returned trace, c0)
                                 ∧ existsb returned trace = false).
  { clear -H2. induction H2 as [| r2 chain2 Hr2 _ IH]; intros c0; simpl.
    - unfold_M. eauto.
    - unfold_M. rewrite Hr2. destruct (IH c0) as (trace & -> & Hnone). eauto. }
  induction H1 as [| r1 chain1 Hr1 _ IH]; simpl.
  - unfold_M. rewrite Hr. destruct (Htail c') as (trace & -> & Hnone). eauto.
  - unfold_M. rewrite Hr1. destruct IH as (trace & -> & Hnone). eauto.
Qed.

Lemma unselected_listeners_pass payload chain comps :
  listener <$> chain = onDelete <$> comps →
  Forall (λ self, isSelected self = false) comps →
  Forall (passesUntouched payload) chain.
Proof.
  revert comps. induction chain as [| r chain IH]; intros [| self comps]; simpl;
    try done.
  intros [= Hr Hrest] [Hself Hcomps]%Forall_cons. constructor.
  - intros c. rewrite Hr. by apply onDelete_unselected.
  - by apply (IH comps).
Qed.

(** The listeners that the mounted components registered for delete and
    for backspace are their [onDelete] callbacks, in mounting order, all at
    one priority. *)
Lemma registered_delete_listeners type comps editor0 :
  type = KEY_DELETE_COMMAND ∨ type = KEY_BACKSPACE_COMMAND →
  let editor := foldl (λ ed self, (registerListeners self ed).1) editor0 comps in
  listener <$> filter (λ r, command r = type) (_commands editor)
  = ((listener <$> filter (λ r, command r = type) (_commands editor0))
       ++ (onDelete <$> comps))%list
  ∧ (Forall (λ r, listenerPriority r = COMMAND_PRIORITY_LOW) (_commands editor0) →
     Forall (λ r, listenerPriority r = COMMAND_PRIORITY_LOW) (_commands editor)).
Proof.
  intros Htype. revert editor0.
  induction comps as [| self comps IH]; intros editor0; cbn [foldl].
  - simpl. by rewrite app_nil_r.
  - destruct (IH (registerListeners self editor0).1) as [Hl Hp].
    split.
    + rewrite Hl. cbn [fmap list_fmap]. simpl.
      rewrite !filter_app, !fmap_app, <- !app_assoc. f_equal.
      destruct Htype as [-> | ->]; reflexivity.
    + intros H0. apply Hp. simpl. rewrite !Forall_app. repeat split; try done;
        by repeat constructor.
Qed.

Lemma unselected_mounted st k keys (l : list (NodeKey * LexicalNode)) :
  selection st = NodeSelection keys →
  wellKeyed (nodeMap st) →
  (∀ k' n', k' ∈ keys → k' ≠ k → nodeMap st !! k' = Some n' →
            isHorizontalRuleNode (Some n') = false) →
  (∀ k' n', (k', n') ∈ l → nodeMap st !! k' = Some n' ∧ k' ≠ k) →
  Forall (λ self, isSelected self = false)
    (omap (λ kn : NodeKey * LexicalNode,
             if isHorizontalRuleNode (Some kn.2)
             then Some (mkComponent (decorate kn.2)
                          (useLexicalNodeSelection.isNodeSelected (selection st)
                             (decorate kn.2)))
             else None) l).
Proof.
  intros Hsel Hkeyed Honly. induction l as [| [k' n'] l IH]; intros Hl; simpl.
  - constructor.
  - assert (Hrest : ∀ k'' n'', (k'', n'') ∈ l → nodeMap st !! k'' = Some n'' ∧ k'' ≠ k).
    { intros k'' n'' Hin. apply Hl. by right. }
    destruct (Hl k' n') as [Hk' Hne]; [by left |].
    destruct (isHorizontalRuleNode (Some n')) eqn:Hrule; [| by apply IH].
    constructor; [| by apply IH].
    simpl. rewrite Hsel. simpl. unfold decorate. rewrite (Hkeyed k' n' Hk').
    apply bool_decide_eq_false. intros Hin.
    by rewrite (Honly k' n' Hin Hne Hk') in Hrule.
Qed.

Lemma mounted_only_selected st k n keys :
  selection st = NodeSelection keys → k ∈ keys →
  nodeMap st !! k = Some n →
  isHorizontalRuleNode (Some n) = true →
  wellKeyed (nodeMap st) →
  (∀ k' n', k' ∈ keys → k' ≠ k → nodeMap st !! k' = Some n' →
            isHorizontalRuleNode (Some n') = false) →
  ∃ cs1 cs2,
    mountedComponents st = (cs1 ++ mkComponent k true :: cs2)%list
    ∧ Forall (λ self, isSelected self = false) (cs1 ++ cs2)%list.
Proof.
  intros Hsel Hin Hk Hrule Hkeyed Honly.
  pose proof (NoDup_fst_map_to_list (nodeMap st)) as Hnodup.
  assert (Hlist : (k, n) ∈ map_to_list (nodeMap st)) by by apply elem_of_map_to_list.
  destruct (list_elem_of_split _ _ Hlist) as (l1 & l2 & Heq).
  assert (Hall : ∀ k' n', (k', n') ∈ (l1 ++ l2)%list → nodeMap st !! k' = Some n' ∧ k' ≠ k).
  { intros k' n' Hin'. split.
    - apply elem_of_map_to_list. rewrite Heq.
      apply elem_of_app in Hin' as [? | ?]; apply elem_of_app; [by left |].
      right. by right.
    - intros ->. rewrite Heq, fmap_app, fmap_cons in Hnodup. simpl in Hnodup.
      apply NoDup_app in Hnodup as (_ & Hdisj & Hnodup2).
      apply NoDup_cons in Hnodup2 as [Hnot2 _].
      apply elem_of_app in Hin' as [Hin1 | Hin2].
      + apply (Hdisj k); [by apply (list_elem_of_fmap_2 fst _ (k, n')) | by left].
      + apply Hnot2. by apply (list_elem_of_fmap_2 fst _ (k, n')). }
  unfold mountedComponents. rewrite Heq, omap_app. simpl. rewrite Hrule.
  eexists _, _. split.
  - f_equal. f_equal. unfold decorate. rewrite (Hkeyed k n Hk). f_equal.
    rewrite Hsel. simpl. by apply bool_decide_eq_true.
  - rewrite <- omap_app. by apply (unselected_mounted st k keys).
Qed.

Lemma render_state editor : _editorState (render editor) = _editorState editor.
Proof.
  unfold render.
  generalize (mountedComponents (_editorState editor)).
  generalize (@nil CommandRegistration) at 1. generalize (_nextHandle editor).
  intros h regs comps. revert h regs.
  induction comps as [| self comps IH]; intros h regs; cbn [foldl]; [done |].
  apply IH.
Qed.

Lemma render_begin editor : beginUpdate (render editor) = beginUpdate editor.
Proof.
  unfold beginUpdate. rewrite render_state. f_equal.
  unfold render.
  generalize (mountedComponents (_editorState editor)).
  generalize (@nil CommandRegistration) at 1. generalize (_nextHandle editor).
  intros h regs comps. revert h regs.
  induction comps as [| self comps IH]; intros h regs; cbn [foldl]; [done |].
  apply IH.
Qed.

(** The chain a delete or backspace walks in a rendered editor. *)
Lemma rendered_delete_chain editor type :
  type = KEY_DELETE_COMMAND ∨ type = KEY_BACKSPACE_COMMAND →
  listener <$> listenersFor (_commands (render editor)) type
  = onDelete <$> mountedComponents (_editorState editor).
Proof.
  intros Htype. unfold render.
  set (editor0 := mkEditor _ _ [] _ _ _).
  destruct (registered_delete_listeners type
              (mountedComponents (_editorState editor)) editor0 Htype) as [Hl Hp].
  unfold listenersFor.
  rewrite (sortByPriority_equal_priorities COMMAND_PRIORITY_LOW).
  - rewrite Hl. reflexivity.
  - apply Forall_forall. intros r [_ Hr]%list_elem_of_filter.
    specialize (Hp (Forall_nil_2 _)). rewrite Forall_forall in Hp. by apply Hp.
Qed.

(** C4 (as amended): in an editor whose delete and backspace listeners
    are those of its mounted HorizontalRuleComponents, for a
    HorizontalRuleNode that is selected through a Node-selection and is
    the only selected HorizontalRuleNode, dispatching the delete or the
    backspace command removes exactly that node: its key leaves the node
    table, every other node stays as it was, the parent with the key taken
    out of its child list, and the selection no longer holds the key. *)
Theorem delete_removes_the_only_selected_rule
    (editor : LexicalEditor) (type : LexicalCommand) (payload : UIEvent)
    (k : NodeKey) (rule : LexicalNode) (keys : gset NodeKey) :
  type = KEY_DELETE_COMMAND ∨ type = KEY_BACKSPACE_COMMAND →
  wellKeyed (nodeMap (_editorState editor)) →
  selection (_editorState editor) = NodeSelection keys →
  k ∈ keys →
  nodeMap (_editorState editor) !! k = Some rule →
  isHorizontalRuleNode (Some rule) = true →
  (∀ k' n', k' ∈ keys → k' ≠ k →
            nodeMap (_editorState editor) !! k' = Some n' →
            isHorizontalRuleNode (Some n') = false) →
  removedExactly k rule (_editorState editor)
    (_editorState (dispatchCommand (render editor) type payload)).
Proof.
  intros Htype Hkeyed Hsel Hin Hk Hrule Honly.
  destruct (mounted_only_selected _ k rule keys Hsel Hin Hk Hrule Hkeyed Honly)
    as (cs1 & cs2 & Hmounted & Hunselected).
  pose proof (rendered_delete_chain editor type Htype) as Hchain.
  rewrite Hmounted, fmap_app, fmap_cons in Hchain.
  apply fmap_app_inv in Hchain as (chain1 & chain' & H1 & H2 & Hsplit).
  destruct chain' as [| r chain2]; [done |].
  injection H2 as Hr H2.
  apply Forall_app in Hunselected as [Hu1 Hu2].
  assert (Hpass : Forall (passesUntouched payload) (chain1 ++ chain2)).
  { apply Forall_app. split; eapply unselected_listeners_pass; eauto. }
  set (c0 := beginUpdate editor).
  assert (Hact : listener r payload c0 = onDelete (mkComponent k true) payload c0)
    by by rewrite Hr.
  rewrite (onDelete_selected_rule k rule keys payload c0 Hsel Hk
             (Hkeyed k rule Hk) Hrule) in Hact.
  destruct (runListeners_one_acts payload chain1 r chain2 c0 _ Hpass Hact)
    as (trace & Hrun & Hnone).
  unfold dispatchCommand, update, triggerCommandListeners. unfold_M.
  rewrite render_begin. fold c0. rewrite Hsplit, Hrun.
  unfold commit. rewrite render_state.
  cbn [_nodeMap _selection _dirty _keyCounter _effects].
  destruct (decide _) as [[Hdirty _] | _].
  { exfalso. apply (not_elem_of_empty (C := gset NodeKey) k). rewrite <- Hdirty.
    apply elem_of_union_l, elem_of_union_l, elem_of_singleton. reflexivity. }
  cbn [_editorState]. unfold removedExactly. cbn [nodeMap selection].
  split; [| split].
  - apply lookup_delete_eq.
  - intros k' Hne. rewrite lookup_delete_ne by done.
    unfold detachFromParent.
    destruct (__parent rule) as [p |].
    + rewrite lookup_alter. destruct (decide (p = k')) as [-> | Hp].
      * by rewrite decide_True.
      * by rewrite decide_False by congruence.
    + by rewrite decide_False.
  - unfold validateSelection. case_decide; simpl; [| done].
    apply bool_decide_eq_false. rewrite elem_of_difference, elem_of_singleton. tauto.
Qed.

End Delete.

Lemma twoRules_wellKeyed : wellKeyed twoRules.
Proof. apply (bool_decide_unpack _). vm_compute. exact I. Defined.

Lemma delete_removes_the_only_selected_rule_witness :
  removedExactly "1" (mkNode "1" (Some "root") HorizontalRuleData)
    (_editorState oneSelectedEditor)
    (_editorState (dispatchCommand (HorizontalRuleNode.render oneSelectedEditor)
                     KEY_DELETE_COMMAND (mkEvent None false))).
Proof.
  apply (delete_removes_the_only_selected_rule oneSelectedEditor KEY_DELETE_COMMAND
           (mkEvent None false) "1" (mkNode "1" (Some "root") HorizontalRuleData)
           {[ "1" ]}).
  - left. reflexivity.
  - exact twoRules_wellKeyed.
  - reflexivity.
  - apply elem_of_singleton. reflexivity.
  - reflexivity.
  - reflexivity.
  - intros k' n' Hin Hne. apply elem_of_singleton in Hin. contradiction.
Defined.

(** What the dispatch leaves of the document when only rule "1" was
    selected: the root with rule "2". *)
Example delete_with_one_rule_selected :
  let after := _editorState (dispatchCommand (HorizontalRuleNode.render oneSelectedEditor)
                               KEY_BACKSPACE_COMMAND (mkEvent None false)) in
  nodeMap after = {[ "root" := mkNode "root" None (RootData ["2"]);
                     "2" := mkNode "2" (Some "root") HorizontalRuleData ]}
  ∧ selection after = NodeSelection ∅.
Proof. split; vm_compute; reflexivity. Qed.

(** C4 as stated fails: with the rules "1" and "2" both selected, the
    listener of each component removes its own node and passes the command
    on, so the dispatch that removes "1" removes "2" as well; "2" is
    another node and does not stay unchanged. *)
Lemma delete_with_two_rules_selected_removes_both :
  let rule1 := mkNode "1" (Some "root") HorizontalRuleData in
  let before := _editorState bothSelectedEditor in
  let after := _editorState (dispatchCommand (HorizontalRuleNode.render bothSelectedEditor)
                               KEY_DELETE_COMMAND (mkEvent None false)) in
  selection before = NodeSelection {[ "1"; "2" ]}
  ∧ nodeMap before !! "1" = Some rule1
  ∧ HorizontalRuleNode.isHorizontalRuleNode (Some rule1) = true
  ∧ nodeMap before !! "2" = Some (mkNode "2" (Some "root") HorizontalRuleData)
  ∧ nodeMap after !! "2" = None
  ∧ ¬ removedExactly "1" rule1 before after.
Proof.
  repeat split; try (vm_compute; reflexivity).
  intros (_ & Hothers & _).
  specialize (Hothers "2" ltac:(discriminate)).
  vm_compute in Hothers. discriminate Hothers.
Qed.

(** How both rules come to be selected: a click on rule "1" selects it, and
    a click on rule "2" with the shift key held adds "2" to the selection;
    a click without shift would have cleared the selection first. *)
Example shift_click_selects_both_rules :
  let clicked := dispatchCommand (HorizontalRuleNode.render unselectedEditor)
                   CLICK_COMMAND (mkEvent (Some "1") false) in
  let shiftClicked := dispatchCommand (HorizontalRuleNode.render clicked)
                        CLICK_COMMAND (mkEvent (Some "2") true) in
  let plainClicked := dispatchCommand (HorizontalRuleNode.render clicked)
                        CLICK_COMMAND (mkEvent (Some "2") false) in
  selection (_editorState clicked) = NodeSelection {[ "1" ]}
  ∧ selection (_editorState shiftClicked) = NodeSelection {[ "1"; "2" ]}
  ∧ nodeMap (_editorState shiftClicked) = nodeMap (_editorState bothSelectedEditor)
  ∧ selection (_editorState plainClicked) = NodeSelection {[ "2" ]}.
Proof. repeat split; vm_compute; reflexivity. Qed.

(** * Further properties of the sources *)

(** ** The callbacks of the horizontal-rule component *)

Section RuleCallbacks.

Import HorizontalRuleNode.

(** The outcome of the delete callback on a well-keyed table, case by
    case. *)
Lemma onDelete_outcome self payload c :
  wellKeyed (_nodeMap c) →
  onDelete self payload c
  = (Returned false,
     if isSelected self && isNodeSelection (_selection c) then
       mkCtx (match _nodeMap c !! nodeKey self with
              | Some n =>
                  if isHorizontalRuleNode (Some n)
                  then delete (nodeKey self)
                         (detachFromParent (nodeKey self) n (_nodeMap c))
                  else _nodeMap c
              | None => _nodeMap c
              end)
             (NodeSelection (selectionKeys (_selection c) ∖ {[nodeKey self]}))
             (match _nodeMap c !! nodeKey self with
              | Some n =>
                  if isHorizontalRuleNode (Some n)
                  then ({[nodeKey self]} ∪ parentKeys n) ∪ _dirty c
                  else _dirty c
              | None => _dirty c
              end)
             (_keyCounter c) (_effects c ++ [PreventDefault])
     else c).
Proof.
  intros Hkeys. destruct self as [k sel]. cbn [nodeKey isSelected].
  destruct sel; [| reflexivity].
  destruct c as [tbl s d n eff]. cbn [_nodeMap _selection _dirty _keyCounter _effects] in *.
  destruct s as [a ao f fo | keys |]; try reflexivity.
  cbn [isNodeSelection andb selectionKeys].
  destruct (tbl !! k) as [x |] eqn:Hx.
  - destruct (isHorizontalRuleNode (Some x)) eqn:Hr.
    + assert (Hk : __key x = k) by exact (Hkeys k x Hx).
      rewrite (onDelete_selected_rule k x keys payload (mkCtx tbl (NodeSelection keys) d n eff));
        try done.
    + unfold onDelete. unfold_M. cbn. rewrite Hx. cbn.
      unfold isHorizontalRuleNode in Hr. cbn in Hr.
      unfold isHorizontalRuleNode. cbn. rewrite Hr. reflexivity.
  - unfold onDelete. unfold_M. cbn. rewrite Hx. reflexivity.
Qed.

(** X1.  The delete callback of a component passes the command on and
    leaves the working context exactly as it found it, when its rule is not
    selected or the selection is not a Node-selection (a range, or none). *)
Theorem onDelete_passes_unless_selected_in_node_selection
    (self : HorizontalRuleComponent) (payload : UIEvent) (c : UpdateCtx) :
  isSelected self = false ∨ isNodeSelection (_selection c) = false →
  onDelete self payload c = (Returned false, c).
Proof.
  intros H. unfold onDelete. unfold_M.
  destruct H as [-> | ->]; [reflexivity |].
  destruct (isSelected self); reflexivity.
Qed.

Lemma onDelete_passes_unless_selected_in_node_selection_witness :
  (isSelected (mkComponent "4" true) = false
   ∨ isNodeSelection (_selection caretInMention) = false)
  ∧ onDelete (mkComponent "4" true) (mkEvent None false) caretInMention
    = (Returned false, caretInMention).
Proof.
  split; [right; reflexivity |].
  apply onDelete_passes_unless_selected_in_node_selection. right. reflexivity.
Defined.

(** The table writes of [remove] keep the nodes under their own keys. *)
Lemma wellKeyed_alter (f : LexicalNode → LexicalNode) k tbl :
  (∀ n, __key (f n) = __key n) → wellKeyed tbl → wellKeyed (alter f k tbl).
Proof.
  intros Hf Hw k' n' Hn'. destruct (decide (k' = k)) as [-> | Hne].
  - rewrite lookup_alter_eq in Hn'. destruct (tbl !! k) as [x |] eqn:Hx; [| done].
    cbn in Hn'. injection Hn' as <-. rewrite Hf. exact (Hw k x Hx).
  - rewrite lookup_alter_ne in Hn' by done. exact (Hw k' n' Hn').
Qed.

Lemma withoutChild_key k n : __key (withoutChild k n) = __key n.
Proof. unfold withoutChild, setChildrenKeys. destruct (data n); reflexivity. Qed.

Lemma wellKeyed_detach k n tbl :
  wellKeyed tbl → wellKeyed (detachFromParent k n tbl).
Proof.
  intros Hw. unfold detachFromParent. destruct (__parent n); [| exact Hw].
  apply wellKeyed_alter; [apply withoutChild_key | exact Hw].
Qed.

Lemma wellKeyed_delete k tbl : wellKeyed tbl → wellKeyed (delete k tbl).
Proof.
  intros Hw k' n' Hn'. apply lookup_delete_Some in Hn' as [_ Hn']. exact (Hw k' n' Hn').
Qed.

(** X2.  On a working table whose nodes carry the keys they are stored
    under, the delete callback always returns, it returns false (the
    command is passed on to the listeners after it), and the table it
    leaves is again such a table. *)
Theorem onDelete_never_handles_the_command
    (self : HorizontalRuleComponent) (payload : UIEvent) (c : UpdateCtx) :
  wellKeyed (_nodeMap c) →
  ∃ c', onDelete self payload c = (Returned false, c')
        ∧ wellKeyed (_nodeMap c')
        ∧ _keyCounter c' = _keyCounter c.
Proof.
  intros Hw. eexists. split; [apply onDelete_outcome; exact Hw |].
  destruct (isSelected self && isNodeSelection (_selection c)); [| done].
  cbn [_nodeMap _keyCounter]. split; [| reflexivity].
  destruct (_nodeMap c !! nodeKey self) as [n |]; [| exact Hw].
  destruct (isHorizontalRuleNode (Some n)); [| exact Hw].
  apply wellKeyed_delete, wellKeyed_detach, Hw.
Qed.

Lemma onDelete_never_handles_the_command_witness :
  wellKeyed twoRules
  ∧ ∃ c', onDelete (mkComponent "1" true) (mkEvent None true)
            (mkCtx twoRules (NodeSelection {[ "1"; "2" ]}) ∅ 3 [])
          = (Returned false, c')
          ∧ wellKeyed (_nodeMap c')
          ∧ _keyCounter c' = 3%N.
Proof.
  split; [exact twoRules_wellKeyed |].
  apply (onDelete_never_handles_the_command (mkComponent "1" true) (mkEvent None true)
           (mkCtx twoRules (NodeSelection {[ "1"; "2" ]}) ∅ 3 [])).
  exact twoRules_wellKeyed.
Defined.

(** Detaching changes at most the child list of the parent. *)
Lemma detachFromParent_lookup k n tbl k' :
  detachFromParent k n tbl !! k' = tbl !! k'
  ∨ detachFromParent k n tbl !! k' = withoutChild k <$> tbl !! k'.
Proof.
  unfold detachFromParent. destruct (__parent n) as [p |]; [| by left].
  destruct (decide (k' = p)) as [-> | Hne].
  - right. by rewrite lookup_alter_eq.
  - left. by rewrite lookup_alter_ne.
Qed.

(** The one node that detaching changes is the parent. *)
Lemma detachFromParent_parent k n tbl k' :
  detachFromParent k n tbl !! k' = tbl !! k'
  ∨ (__parent n = Some k'
     ∧ detachFromParent k n tbl !! k' = withoutChild k <$> tbl !! k').
Proof.
  unfold detachFromParent. destruct (__parent n) as [p |]; [| by left].
  destruct (decide (k' = p)) as [-> | Hne].
  - right. by rewrite lookup_alter_eq.
  - left. by rewrite lookup_alter_ne.
Qed.

(** X3.  Whatever the delete callback does, it removes no node but its
    own: every other key of the working table is still there afterwards,
    with its node as it was or, for the parent of the removed rule, with
    the rule's key taken out of the child list; and the callback puts no new key
    into the table. *)
Theorem onDelete_removes_no_other_node
    (self : HorizontalRuleComponent) (payload : UIEvent) (c c' : UpdateCtx)
    (result : Outcome bool) :
  wellKeyed (_nodeMap c) →
  onDelete self payload c = (result, c') →
  (∀ k, k ≠ nodeKey self →
        _nodeMap c' !! k = _nodeMap c !! k
        ∨ ∃ rule,
            _nodeMap c !! nodeKey self = Some rule
            ∧ __parent rule = Some k
            ∧ _nodeMap c' !! k = withoutChild (nodeKey self) <$> _nodeMap c !! k)
  ∧ dom (_nodeMap c') ⊆ dom (_nodeMap c).
Proof.
  intros Hw Hrun. rewrite (onDelete_outcome self payload c Hw) in Hrun.
  injection Hrun as _ <-.
  destruct (isSelected self && isNodeSelection (_selection c));
    [| split; [by left | done]].
  cbn [_nodeMap].
  destruct (_nodeMap c !! nodeKey self) as [n |] eqn:Hn; [| split; [by left | done]].
  destruct (isHorizontalRuleNode (Some n)); [| split; [by left | done]].
  split.
  - intros k Hk. rewrite lookup_delete_ne by done.
    destruct (detachFromParent_parent (nodeKey self) n (_nodeMap c) k) as [E | [Hp E]];
      [by left | right]. exists n. done.
  - intros k Hk. apply elem_of_dom in Hk as [x Hx]. apply elem_of_dom.
    apply lookup_delete_Some in Hx as [Hne Hx].
    destruct (detachFromParent_lookup (nodeKey self) n (_nodeMap c) k) as [E | E];
      rewrite E in Hx; [by eexists |].
    destruct (_nodeMap c !! k); [by eexists | done].
Qed.

Lemma onDelete_removes_no_other_node_witness :
  let c := mkCtx twoRules (NodeSelection {[ "1"; "2" ]}) ∅ 3 [] in
  let run := onDelete (mkComponent "1" true) (mkEvent None true) c in
  wellKeyed (_nodeMap c)
  ∧ (∀ k, k ≠ "1" →
          _nodeMap run.2 !! k = _nodeMap c !! k
          ∨ ∃ rule,
              _nodeMap c !! "1" = Some rule
              ∧ __parent rule = Some k
              ∧ _nodeMap run.2 !! k = withoutChild "1" <$> _nodeMap c !! k)
  ∧ dom (_nodeMap run.2) ⊆ dom (_nodeMap c).
Proof.
  intros c run. split; [exact twoRules_wellKeyed |].
  apply (onDelete_removes_no_other_node (mkComponent "1" true) (mkEvent None true)
           c run.2 run.1).
  - exact twoRules_wellKeyed.
  - apply surjective_pairing.
Defined.

(** X4.  A selected component whose key holds no horizontal rule any
    more (the key is missing from the working table, or holds a node of
    another class) removes nothing: the table and the dirty keys stay as
    they are, while the default action is still prevented and the key is
    still taken out of the Node-selection. *)
Theorem onDelete_without_its_rule_removes_nothing
    (self : HorizontalRuleComponent) (payload : UIEvent) (c : UpdateCtx)
    (keys : gset NodeKey) :
  isSelected self = true →
  _selection c = NodeSelection keys →
  isHorizontalRuleNode (_nodeMap c !! nodeKey self) = false →
  onDelete self payload c
  = (Returned false,
     mkCtx (_nodeMap c) (NodeSelection (keys ∖ {[nodeKey self]})) (_dirty c)
           (_keyCounter c) (_effects c ++ [PreventDefault])).
Proof.
  intros Hsel Hs Hno. unfold onDelete. unfold_M. rewrite Hsel, Hs. cbn.
  rewrite Hno. cbn. rewrite Hs. reflexivity.
Qed.

Lemma onDelete_without_its_rule_removes_nothing_witness :
  let c := mkCtx mentionDocument (NodeSelection {[ "3"; "9" ]}) ∅ 5 [] in
  (isSelected (mkComponent "3" true) = true
   ∧ _selection c = NodeSelection {[ "3"; "9" ]}
   ∧ isHorizontalRuleNode (_nodeMap c !! "3") = false)
  ∧ onDelete (mkComponent "3" true) (mkEvent None false) c
    = (Returned false,
       mkCtx mentionDocument (NodeSelection ({[ "3"; "9" ]} ∖ {[ "3" ]})) ∅ 5
             [PreventDefault]).
Proof.
  intros c. split; [repeat split; reflexivity |].
  apply (onDelete_without_its_rule_removes_nothing (mkComponent "3" true)
           (mkEvent None false) c {[ "3"; "9" ]}); reflexivity.
Defined.

(** X5.  The click listener of a component handles the command exactly
    when the event's target is what [editor.getElementByKey(nodeKey)]
    answers: the element of its own rule, or null when the editor has no
    element for the key and the event has no target.  It never writes to
    the node table, the dirty keys or the key counter and never prevents
    the default action; a click on anything else leaves the whole context
    as it was. *)
Theorem onClick_handles_clicks_on_its_rule_only
    (editor : LexicalEditor) (self : HorizontalRuleComponent) (event : UIEvent)
    (c : UpdateCtx) :
  ∃ c', onClick editor self event c
        = (Returned (bool_decide (target event = getElementByKey editor (nodeKey self))),
           c')
        ∧ _nodeMap c' = _nodeMap c
        ∧ _dirty c' = _dirty c
        ∧ _keyCounter c' = _keyCounter c
        ∧ _effects c' = _effects c
        ∧ (target event ≠ getElementByKey editor (nodeKey self) → c' = c).
Proof.
  unfold onClick. unfold_M.
  destruct (decide (target event = getElementByKey editor (nodeKey self))) as [E | E].
  - rewrite (bool_decide_eq_true_2 _ E).
    destruct (shiftKey event); cbn;
      [| destruct (_selection c)]; (eexists; split; [reflexivity |]); cbn; done.
  - rewrite (bool_decide_eq_false_2 _ E). exists c. done.
Qed.

(** A component whose key has no element in the editor takes a click
    without target for its own: [event.target === hrElem] holds with null
    on both sides, and the listener selects the key. *)
Example click_without_target_on_a_rule_without_element :
  let run := onClick unselectedEditor (mkComponent "9" false) (mkEvent None false)
               (beginUpdate unselectedEditor) in
  getElementByKey unselectedEditor "9" = None
  ∧ run.1 = Returned true
  ∧ _selection run.2 = NodeSelection {[ "9" ]}.
Proof. repeat split; vm_compute; reflexivity. Qed.

(** The set that [setSelected] writes: the key is in it as asked, the
    other keys as before. *)
Lemma toggled_key_selected (key : NodeKey) (selected : bool) (ks : gset NodeKey) :
  bool_decide (key ∈ (if selected then {[key]} ∪ ks else ks ∖ {[key]})) = selected.
Proof.
  destruct selected.
  - apply bool_decide_eq_true_2, elem_of_union_l, elem_of_singleton. reflexivity.
  - apply bool_decide_eq_false_2. rewrite elem_of_difference, elem_of_singleton. tauto.
Qed.

Lemma toggled_key_others (key k : NodeKey) (selected : bool) (ks : gset NodeKey) :
  k ≠ key →
  bool_decide (k ∈ (if selected then {[key]} ∪ ks else ks ∖ {[key]}))
  = bool_decide (k ∈ ks).
Proof.
  intros Hk. apply bool_decide_ext. destruct selected.
  - rewrite elem_of_union, elem_of_singleton. tauto.
  - rewrite elem_of_difference, elem_of_singleton. tauto.
Qed.

(** X6.  A click on the element of a rule toggles that rule: afterwards
    its key is selected exactly if the component's [isSelected] was false.
    Any other key stays selected only if it was selected and the shift key
    was held; a click without shift leaves no other key selected.  The
    click is on the rule when the event's target is what
    [editor.getElementByKey(nodeKey)] answers. *)
Theorem click_toggles_the_rule_and_shift_keeps_the_others
    (editor : LexicalEditor) (self : HorizontalRuleComponent) (event : UIEvent)
    (c : UpdateCtx) :
  target event = getElementByKey editor (nodeKey self) →
  ∃ c', onClick editor self event c = (Returned true, c')
        ∧ useLexicalNodeSelection.isNodeSelected (_selection c') (nodeKey self)
          = negb (isSelected self)
        ∧ ∀ k, k ≠ nodeKey self →
               useLexicalNodeSelection.isNodeSelected (_selection c') k
               = shiftKey event
                 && useLexicalNodeSelection.isNodeSelected (_selection c) k.
Proof.
  intros E. unfold onClick. unfold_M.
  destruct (decide (target event = getElementByKey editor (nodeKey self)))
    as [_ | []]; [| done].
  unfold useLexicalNodeSelection.setSelected, useLexicalNodeSelection.clearSelection.
  unfold_M. destruct c as [tbl s d n eff].
  destruct (shiftKey event), s as [a ao f fo | ks |];
    cbn; (eexists; split; [reflexivity |]); cbn;
    (split; [apply toggled_key_selected | intros k Hk]);
    rewrite (toggled_key_others _ _ _ _ Hk); try reflexivity;
    apply bool_decide_eq_false_2, not_elem_of_empty.
Qed.

Lemma click_toggles_the_rule_and_shift_keeps_the_others_witness :
  let c := mkCtx twoRules (NodeSelection {[ "1" ]}) ∅ 3 [] in
  (target (mkEvent (Some "2") true) = Some "2"
   ∧ getElementByKey oneSelectedEditor (nodeKey (mkComponent "2" false)) = Some "2")
  ∧ ∃ c', onClick oneSelectedEditor (mkComponent "2" false) (mkEvent (Some "2") true) c
          = (Returned true, c')
          ∧ useLexicalNodeSelection.isNodeSelected (_selection c') "2" = true
          ∧ ∀ k, k ≠ "2" →
                 useLexicalNodeSelection.isNodeSelected (_selection c') k
                 = true && useLexicalNodeSelection.isNodeSelected (_selection c) k.
Proof.
  intros c.
  assert (Helem : getElementByKey oneSelectedEditor "2" = Some "2")
    by (vm_compute; reflexivity).
  split; [split; [reflexivity | exact Helem] |].
  apply (click_toggles_the_rule_and_shift_keeps_the_others oneSelectedEditor
           (mkComponent "2" false) (mkEvent (Some "2") true) c).
  symmetry. exact Helem.
Defined.

End RuleCallbacks.

(** ** Delete and the listeners of a rendered editor *)

Section RenderedEditor.

Import HorizontalRuleNode.

(** A chain of listeners that all pass is walked to its end and leaves
    the context untouched. *)
Lemma runListeners_all_pass payload chain c :
  Forall (passesUntouched payload) chain →
  ∃ trace, runListeners chain payload c = (Returned trace, c)
           ∧ existsb returned trace = false.
Proof.
  induction 1 as [| r chain Hr _ [trace [IH Hnone]]].
  - by exists [].
  - exists (mkInvocation (handle r) false :: trace). cbn [runListeners]. unfold_M.
    rewrite (Hr c), IH. done.
Qed.

(** Mounting emits no event. *)
Lemma render_events editor : _events (render editor) = _events editor.
Proof.
  unfold render.
  generalize (mountedComponents (_editorState editor)).
  generalize (@nil CommandRegistration) at 1. generalize (_nextHandle editor).
  intros h regs comps. revert h regs.
  induction comps as [| self comps IH]; intros h regs; cbn [foldl]; [done |].
  apply IH.
Qed.

(** With no rule selected, no mounted component is selected. *)
Lemma mounted_unselected st :
  (∀ k n, nodeMap st !! k = Some n → isHorizontalRuleNode (Some n) = true →
          useLexicalNodeSelection.isNodeSelected (selection st) (__key n) = false) →
  Forall (λ self, isSelected self = false) (mountedComponents st).
Proof.
  intros Hnone. apply Forall_forall. intros self Hin.
  unfold mountedComponents in Hin. apply list_elem_of_omap in Hin as [[k n] [Hkn Hself]].
  apply elem_of_map_to_list in Hkn. cbv beta in Hself. cbn [snd] in Hself.
  destruct (isHorizontalRuleNode (Some n)) eqn:Hr; [| done].
  injection Hself as <-. cbn. unfold decorate. exact (Hnone k n Hkn Hr).
Qed.

(** X7.  When no horizontal rule is selected (the selection is a range,
    or none, or a Node-selection of other nodes), dispatching Delete or
    Backspace to the rendered editor changes nothing: the Editor State is
    the one before and the host sees no reconciliation, no listener notice
    and no error. *)
Theorem delete_with_no_rule_selected_changes_nothing
    (editor : LexicalEditor) (type : LexicalCommand) (payload : UIEvent) :
  type = KEY_DELETE_COMMAND ∨ type = KEY_BACKSPACE_COMMAND →
  (∀ k n, nodeMap (_editorState editor) !! k = Some n →
          isHorizontalRuleNode (Some n) = true →
          useLexicalNodeSelection.isNodeSelected
            (selection (_editorState editor)) (__key n) = false) →
  selectionKeys (selection (_editorState editor))
    ⊆ dom (nodeMap (_editorState editor)) →
  _editorState (dispatchCommand (render editor) type payload) = _editorState editor
  ∧ _events (dispatchCommand (render editor) type payload) = _events editor.
Proof.
  intros Htype Hnone Hvalid.
  assert (Hpass : Forall (passesUntouched payload)
                    (listenersFor (_commands (render editor)) type)).
  { apply (unselected_listeners_pass payload _ (mountedComponents (_editorState editor))).
    - apply rendered_delete_chain, Htype.
    - apply mounted_unselected, Hnone. }
  destruct (runListeners_all_pass payload _ (beginUpdate editor) Hpass)
    as [trace [Hrun Hnot]].
  unfold dispatchCommand, update, triggerCommandListeners. unfold_M.
  rewrite render_begin, Hrun. unfold commit.
  cbn [beginUpdate _dirty _nodeMap _selection _keyCounter].
  unfold validateSelection.
  destruct (decide (selectionKeys (selection (_editorState editor))
                     ⊆ dom (nodeMap (_editorState editor)))) as [_ | []];
    [| exact Hvalid].
  rewrite render_state, decide_True by done.
  cbn [_editorState _events]. split; [reflexivity | apply render_events].
Qed.

Lemma delete_with_no_rule_selected_changes_nothing_witness :
  _editorState (dispatchCommand (render caretEditor) KEY_BACKSPACE_COMMAND
                  (mkEvent None false))
  = _editorState caretEditor
  ∧ _events (dispatchCommand (render caretEditor) KEY_BACKSPACE_COMMAND
               (mkEvent None false))
    = _events caretEditor.
Proof.
  apply (delete_with_no_rule_selected_changes_nothing caretEditor KEY_BACKSPACE_COMMAND
           (mkEvent None false)).
  - right. reflexivity.
  - intros k n _ _. reflexivity.
  - apply (bool_decide_unpack _). vm_compute. reflexivity.
Defined.

(** Unregistering a handle that no listener carries removes nothing. *)
Lemma filter_fresh_handle h' (regs : list CommandRegistration) h :
  Forall (λ r, (handle r < h)%nat) regs → (h ≤ h')%nat →
  filter (λ r, handle r ≠ h') regs = regs.
Proof.
  intros Hregs Hle. induction Hregs as [| r regs Hr _ IH]; [done |].
  rewrite filter_cons_True by lia. by rewrite IH.
Qed.

(** The handles given out by a mount are in use afterwards. *)
Lemma registerListeners_handlesInUse self editor :
  handlesInUse editor → handlesInUse (registerListeners self editor).1.
Proof.
  unfold handlesInUse, registerListeners, registerCommand.
  cbn [fst _commands _nextHandle]. intros Hfresh.
  rewrite !Forall_app. repeat split; try (repeat constructor; cbn; lia).
  eapply Forall_impl; [exact Hfresh |]. cbn. intros. lia.
Qed.

(** X8.  Mounting a component registers, after the listeners that were
    there, three listeners: for the click, the delete and the backspace
    command, each at COMMAND_PRIORITY_LOW.  Their three handles are
    pairwise distinct and carried by no listener registered before;
    calling the three unregister functions leaves the editor's listeners
    exactly as they were before the mount. *)
Theorem unmounting_restores_the_listeners
    (self : HorizontalRuleComponent) (editor : LexicalEditor) :
  handlesInUse editor →
  NoDup (registerListeners self editor).2
  ∧ Forall (λ h, Forall (λ r, handle r ≠ h) (_commands editor))
           (registerListeners self editor).2
  ∧ handlesInUse (registerListeners self editor).1
  ∧ length (_commands (registerListeners self editor).1)
    = (length (_commands editor) + 3)%nat
  ∧ take (length (_commands editor)) (_commands (registerListeners self editor).1)
    = _commands editor
  ∧ (λ r, (command r, listenerPriority r))
      <$> drop (length (_commands editor)) (_commands (registerListeners self editor).1)
    = [ (CLICK_COMMAND, COMMAND_PRIORITY_LOW);
        (KEY_DELETE_COMMAND, COMMAND_PRIORITY_LOW);
        (KEY_BACKSPACE_COMMAND, COMMAND_PRIORITY_LOW) ]
  ∧ _commands (unregisterAll (registerListeners self editor).2
                 (registerListeners self editor).1)
    = _commands editor.
Proof.
  intros Hfresh. unfold handlesInUse in *.
  unfold registerListeners, registerCommand.
  cbn [fst snd _commands _nextHandle _config _editorState _nextKey _events].
  split; [| split; [| split; [| split; [| split; [| split]]]]].
  - repeat constructor; rewrite ?elem_of_cons, ?elem_of_nil; lia.
  - repeat constructor; eapply Forall_impl; try exact Hfresh; cbn; intros; lia.
  - exact (registerListeners_handlesInUse self editor Hfresh).
  - rewrite !length_app. cbn. lia.
  - rewrite <- !(assoc_L (++)). apply take_app_length.
  - rewrite <- !(assoc_L (++)). rewrite drop_app_length. reflexivity.
  - unfold unregisterAll. cbn [foldr]. unfold unregister. cbn [_commands].
    rewrite <- !(assoc_L (++)). cbn [app].
    set (h := _nextHandle editor) in *.
    rewrite (filter_app _ (_commands editor)), (filter_fresh_handle (S (S h)) _ h) by (done || lia).
    rewrite !filter_cons_True, filter_cons_False, filter_nil by (cbn; lia).
    rewrite (filter_app _ (_commands editor)), (filter_fresh_handle (S h) _ h) by (done || lia).
    rewrite filter_cons_True, filter_cons_False, filter_nil by (cbn; lia).
    rewrite (filter_app _ (_commands editor)), (filter_fresh_handle h _ h) by (done || lia).
    rewrite filter_cons_False, filter_nil by (cbn; lia).
    apply app_nil_r.
Qed.

End RenderedEditor.

Lemma unmounting_restores_the_listeners_witness :
  let self := HorizontalRuleNode.mkComponent "1" true in
  let editor := (HorizontalRuleNode.registerListeners
                   (HorizontalRuleNode.mkComponent "2" false) oneSelectedEditor).1 in
  handlesInUse editor
  ∧ NoDup (HorizontalRuleNode.registerListeners self editor).2
  ∧ Forall (λ h, Forall (λ r, handle r ≠ h) (_commands editor))
           (HorizontalRuleNode.registerListeners self editor).2
  ∧ handlesInUse (HorizontalRuleNode.registerListeners self editor).1
  ∧ length (_commands (HorizontalRuleNode.registerListeners self editor).1)
    = (length (_commands editor) + 3)%nat
  ∧ take (length (_commands editor))
         (_commands (HorizontalRuleNode.registerListeners self editor).1)
    = _commands editor
  ∧ (λ r, (command r, listenerPriority r))
      <$> drop (length (_commands editor))
               (_commands (HorizontalRuleNode.registerListeners self editor).1)
    = [ (CLICK_COMMAND, COMMAND_PRIORITY_LOW);
        (KEY_DELETE_COMMAND, COMMAND_PRIORITY_LOW);
        (KEY_BACKSPACE_COMMAND, COMMAND_PRIORITY_LOW) ]
  ∧ _commands (unregisterAll (HorizontalRuleNode.registerListeners self editor).2
                 (HorizontalRuleNode.registerListeners self editor).1)
    = _commands editor.
Proof.
  intros self editor.
  assert (H : handlesInUse editor).
  { apply registerListeners_handlesInUse. constructor. }
  split; [exact H |].
  apply (unmounting_restores_the_listeners self editor H).
Defined.

(** ** Import and export of the external format *)

(** [importElement] runs the conversion that the map offers. *)
Lemma importElement_proposed map domNode :
  importElement map domNode
  = match proposedConversion map domNode with
    | Some conv => conversion conv domNode
    | None => mret None
    end.
Proof.
  unfold importElement, proposedConversion. destruct map as [m |]; [| reflexivity].
  cbn. destruct (m !! nodeName domNode) as [propose |]; [| reflexivity].
  cbn. reflexivity.
Qed.

(** What the import map of MentionNode offers for an element. *)
Lemma mention_map_proposal (cfg : EditorConfig) (domNode : DOMNode) :
  proposedConversion (MentionNode.importDOM cfg) domNode
  = (if bool_decide (nodeName domNode = "span")
        && hasAttribute "data-lexical-mention" domNode
     then Some (mkConversion (MentionNode.convertMentionElement cfg) 1)
     else None).
Proof.
  unfold proposedConversion, MentionNode.importDOM. cbn [mbind option_bind].
  case_bool_decide as Htag.
  - rewrite Htag, lookup_singleton_eq. cbn.
    destruct (hasAttribute "data-lexical-mention" domNode); reflexivity.
  - rewrite lookup_singleton_ne by done. reflexivity.
Qed.

(** X9.  The import map of MentionNode offers a conversion exactly for
    the [span] elements that carry the attribute [data-lexical-mention],
    whatever the attribute's value, and then at priority 1; the map of
    HorizontalRuleNode offers one exactly for the [hr] elements, at
    priority 0.  An element of any other tag gets no conversion from
    either. *)
Theorem import_maps_offer_conversions_for_marked_spans_and_rules
    (cfg : EditorConfig) (domNode : DOMNode) :
  proposedConversion (MentionNode.importDOM cfg) domNode
  = (if bool_decide (nodeName domNode = "span")
        && hasAttribute "data-lexical-mention" domNode
     then Some (mkConversion (MentionNode.convertMentionElement cfg) 1)
     else None)
  ∧ proposedConversion (HorizontalRuleNode.importDOM cfg) domNode
    = (if bool_decide (nodeName domNode = "hr")
       then Some (mkConversion (HorizontalRuleNode.convertHorizontalRuleElement cfg) 0)
       else None).
Proof.
  split; [apply mention_map_proposal |].
  unfold proposedConversion, HorizontalRuleNode.importDOM. cbn [mbind option_bind].
  case_bool_decide as Htag.
  - rewrite Htag, lookup_singleton_eq. reflexivity.
  - rewrite lookup_singleton_ne by done. reflexivity.
Qed.

(** What [$createMentionNode] returns and leaves, when the class is not
    replaced: its four writes to the entry of the new key leave one entry. *)
Lemma createMentionNode_context cfg mentionName c :
  noReplacementFor cfg "mention" →
  let this := mkNode (pretty (_keyCounter c)) None
                (MentionData mentionName (mkTextFields mentionName 0 segmented 1)) in
  MentionNode.createMentionNode cfg mentionName c = (Returned this, afterCreation this c).
Proof.
  intros Hnone this.
  unfold MentionNode.createMentionNode, MentionNode.new, TextNode.constructor,
    LexicalNode_constructor, assignInConstructor, generateKey, storeNode.
  unfold_M. simpl.
  rewrite applyNodeReplacement_none by exact Hnone.
  unfold TextNode.setMode, getWritable. unfold_M. simpl.
  rewrite lookup_insert_eq. simpl.
  unfold TextNode.toggleDirectionless, getWritable, storeNode. unfold_M. simpl.
  rewrite lookup_insert_eq. simpl.
  unfold readObject. unfold_M. simpl. rewrite lookup_insert_eq. simpl.
  unfold afterCreation, withDirty, withNodeMap, this. simpl.
  rewrite !insert_insert_eq, !(assoc_L (∪)), !union_idemp_L. reflexivity.
Qed.

(** X10.  Importing a marked span and exporting the node again keeps the
    text: the conversion never answers null, the node it creates is a
    mention named by the text content of the span (the text of nested
    markup included), and the element exported from that node has the same
    text content. *)
Theorem export_of_import_keeps_the_text
    (cfg : EditorConfig) (domNode : DOMNode) (c : UpdateCtx) :
  noReplacementFor cfg "mention" →
  nodeName domNode = "span" →
  hasAttribute "data-lexical-mention" domNode = true →
  ∃ text out c',
    textContent domNode = Some text
    ∧ importElement (MentionNode.importDOM cfg) domNode c = (Returned (Some out), c')
    ∧ MentionNode.isMentionNode (Some (node out)) = true
    ∧ node__mention (node out) = text
    ∧ textContent (element (MentionNode.exportDOM (node out))) = Some text.
Proof.
  intros Hcfg Htag Hattr.
  assert (Htext : ∃ text, textContent domNode = Some text)
    by (destruct domNode; eexists; reflexivity).
  destruct Htext as [text Htext].
  destruct (createMentionNode_plain cfg text c Hcfg) as (key & c' & Hrun & _).
  exists text. eexists. exists c'. split; [exact Htext |].
  rewrite importElement_proposed.
  rewrite mention_map_proposal.
  rewrite Htag, Hattr. cbn [bool_decide andb conversion].
  rewrite bool_decide_eq_true_2 by reflexivity. cbn [andb conversion].
  unfold MentionNode.convertMentionElement. rewrite Htext. unfold_M. rewrite Hrun.
  split; [reflexivity |]. cbn [node].
  split; [reflexivity |]. split; [reflexivity |].
  apply exported_span_textContent.
Qed.

Lemma export_of_import_keeps_the_text_witness :
  noReplacementFor plainConfig "mention"
  ∧ nodeName nestedMentionSpan = "span"
  ∧ hasAttribute "data-lexical-mention" nestedMentionSpan = true
  ∧ ∃ text out c',
      textContent nestedMentionSpan = Some text
      ∧ importElement (MentionNode.importDOM plainConfig) nestedMentionSpan emptyCtx
        = (Returned (Some out), c')
      ∧ MentionNode.isMentionNode (Some (node out)) = true
      ∧ node__mention (node out) = text
      ∧ textContent (element (MentionNode.exportDOM (node out))) = Some text.
Proof.
  split; [reflexivity |]. split; [reflexivity |]. split; [reflexivity |].
  apply (export_of_import_keeps_the_text plainConfig nestedMentionSpan emptyCtx);
    reflexivity.
Defined.

(** X11.  Exporting a mention and importing the element keeps the text
    and nothing else: the imported node is a new mention whose mention name
    and text are both the text of the original, in segmented mode and
    directionless, with no format and no parent.  The mention name, the
    format, the mode and the key of the original do not survive the round
    trip. *)
Theorem import_of_export_keeps_only_the_text
    (cfg : EditorConfig) (original : LexicalNode) (c : UpdateCtx) :
  noReplacementFor cfg "mention" →
  ∃ c',
    importElement (MentionNode.importDOM cfg)
                  (element (MentionNode.exportDOM original)) c
    = (Returned (Some (mkOutput
         (mkNode (pretty (_keyCounter c)) None
            (MentionData (node__text original)
               (mkTextFields (node__text original) 0 segmented 1))))), c').
Proof.
  intros Hcfg. rewrite exported_span_is_recognised.
  unfold MentionNode.convertMentionElement. rewrite exported_span_textContent.
  unfold_M. rewrite (createMentionNode_context cfg _ c Hcfg).
  eexists. reflexivity.
Qed.

Lemma import_of_export_keeps_only_the_text_witness :
  noReplacementFor plainConfig "mention"
  ∧ ∃ c',
      importElement (MentionNode.importDOM plainConfig)
                    (element (MentionNode.exportDOM boldMention)) caretInMention
      = (Returned (Some (mkOutput
           (mkNode "5" None
              (MentionData "@alice" (mkTextFields "@alice" 0 segmented 1))))), c').
Proof.
  split; [reflexivity |].
  apply (import_of_export_keeps_only_the_text plainConfig boldMention caretInMention).
  reflexivity.
Defined.

(** ** Clones and factories *)

(** X12.  The static [clone] of a class reads of the node only what it
    passes to the constructor: the key, and for the text classes the text
    and the mention name.  Two nodes that agree on these have the same
    clone, in every configuration and context, whatever their parent,
    format, mode, detail flags or children are. *)
Theorem clone_reads_only_key_text_and_mention
    (cfg : EditorConfig) (a b : LexicalNode) (c : UpdateCtx) :
  __key a = __key b →
  node__text a = node__text b →
  node__mention a = node__mention b →
  HashtagNode.clone cfg a c = HashtagNode.clone cfg b c
  ∧ MentionNode.clone cfg a c = MentionNode.clone cfg b c
  ∧ OverflowNode.clone cfg a c = OverflowNode.clone cfg b c
  ∧ HorizontalRuleNode.clone cfg a c = HorizontalRuleNode.clone cfg b c
  ∧ TestTextNode.clone a c = TestTextNode.clone b c.
Proof.
  intros Hkey Htext Hmention.
  unfold HashtagNode.clone, MentionNode.clone, OverflowNode.clone,
         HorizontalRuleNode.clone, TestTextNode.clone.
  rewrite Hkey, Htext, Hmention. done.
Qed.

Lemma clone_reads_only_key_text_and_mention_witness :
  (__key boldMention = __key boldMentionElsewhere
   ∧ node__text boldMention = node__text boldMentionElsewhere
   ∧ node__mention boldMention = node__mention boldMentionElsewhere
   ∧ boldMention ≠ boldMentionElsewhere)
  ∧ MentionNode.clone replacingConfig boldMention caretInMention
    = MentionNode.clone replacingConfig boldMentionElsewhere caretInMention.
Proof.
  split; [repeat split; done |].
  apply (clone_reads_only_key_text_and_mention replacingConfig boldMention
           boldMentionElsewhere caretInMention); reflexivity.
Defined.



(** X13.  In a configuration that replaces none of the four classes, each
    [$create] function returns a node without parent under the key printed
    from the key counter, and its only writes to the working context are
    that node's entry in the table, its key among the dirty keys and the
    advanced counter: every other node, the selection and the host effects
    are as before.  [$createHashtagNode] without argument gives the empty
    text, a created overflow node has no children, and the several writes
    of [$createMentionNode] leave one entry. *)
Theorem factories_write_only_the_created_node
    (cfg : EditorConfig) (c : UpdateCtx) :
  Forall (noReplacementFor cfg) ["hashtag"; "mention"; "overflow"; "horizontalrule"] →
  let created (d : NodeData) := mkNode (pretty (_keyCounter c)) None d in
  (∀ text,
     let this := created (HashtagData (mkTextFields (default "" text) 0 normal 0)) in
     HashtagNode.createHashtagNode cfg text c = (Returned this, afterCreation this c))
  ∧ (∀ mentionName,
       let this := created (MentionData mentionName
                              (mkTextFields mentionName 0 segmented 1)) in
       MentionNode.createMentionNode cfg mentionName c
       = (Returned this, afterCreation this c))
  ∧ (let this := created (OverflowData []) in
     OverflowNode.createOverflowNode cfg c = (Returned this, afterCreation this c))
  ∧ (let this := created HorizontalRuleData in
     HorizontalRuleNode.createHorizontalRuleNode cfg c
     = (Returned this, afterCreation this c)).
Proof.
  intros Hcfg created.
  apply Forall_cons in Hcfg as [Hhashtag Hcfg].
  apply Forall_cons in Hcfg as [Hmention Hcfg].
  apply Forall_cons in Hcfg as [Hoverflow Hcfg].
  apply Forall_cons in Hcfg as [Hrule _].
  split; [| split; [| split]].
  - intros text this.
    unfold HashtagNode.createHashtagNode, HashtagNode.new, TextNode.constructor,
           LexicalNode_constructor, generateKey, storeNode.
    unfold_M. cbn.
    rewrite applyNodeReplacement_none by exact Hhashtag. reflexivity.
  - intros mentionName this. exact (createMentionNode_context cfg mentionName c Hmention).
  - intros this.
    unfold OverflowNode.createOverflowNode, OverflowNode.new, ElementNode.constructor,
           LexicalNode_constructor, generateKey, storeNode.
    unfold_M. cbn.
    rewrite applyNodeReplacement_none by exact Hoverflow. reflexivity.
  - intros this.
    unfold HorizontalRuleNode.createHorizontalRuleNode, HorizontalRuleNode.new,
           DecoratorNode.constructor, LexicalNode_constructor, generateKey, storeNode.
    unfold_M. cbn.
    rewrite applyNodeReplacement_none by exact Hrule. reflexivity.
Qed.

Lemma factories_write_only_the_created_node_witness :
  Forall (noReplacementFor plainConfig) ["hashtag"; "mention"; "overflow"; "horizontalrule"]
  ∧ MentionNode.createMentionNode plainConfig "bob" caretInMention
    = (Returned (mkNode "5" None (MentionData "bob" (mkTextFields "bob" 0 segmented 1))),
       afterCreation
         (mkNode "5" None (MentionData "bob" (mkTextFields "bob" 0 segmented 1)))
         caretInMention).
Proof.
  assert (H : Forall (noReplacementFor plainConfig)
                ["hashtag"; "mention"; "overflow"; "horizontalrule"])
    by (repeat constructor).
  split; [exact H |].
  exact (proj1 (proj2 (factories_write_only_the_created_node plainConfig caretInMention H))
           "bob").
Defined.

(** ** Delete with several rules selected *)

Section AllSelected.

Import HorizontalRuleNode.

(** Taking a key out of a child list keeps the class of the node. *)
Lemma withoutChild_class k (o : option LexicalNode) :
  isHorizontalRuleNode (withoutChild k <$> o) = isHorizontalRuleNode o.
Proof.
  destruct o as [n |]; [| reflexivity]. unfold isHorizontalRuleNode. cbn.
  destruct n as [key p d]. destruct d; reflexivity.
Qed.

(** What the delete callback of a selected component leaves of a
    well-keyed table under a Node-selection. *)
Lemma onDelete_selected_step self payload c :
  wellKeyed (_nodeMap c) →
  isSelected self = true →
  isNodeSelection (_selection c) = true →
  ∃ c', onDelete self payload c = (Returned false, c')
    ∧ wellKeyed (_nodeMap c')
    ∧ _selection c' = NodeSelection (selectionKeys (_selection c) ∖ {[nodeKey self]})
    ∧ dom (_nodeMap c') ⊆ dom (_nodeMap c)
    ∧ (∀ k, k ≠ nodeKey self →
            _nodeMap c' !! k = _nodeMap c !! k
            ∨ _nodeMap c' !! k = withoutChild (nodeKey self) <$> _nodeMap c !! k)
    ∧ (isHorizontalRuleNode (_nodeMap c !! nodeKey self) = true →
       _nodeMap c' !! nodeKey self = None)
    ∧ (isHorizontalRuleNode (_nodeMap c !! nodeKey self) = false →
       _nodeMap c' = _nodeMap c).
Proof.
  intros Hw Hsel Hns. eexists. split; [apply onDelete_outcome; exact Hw |].
  rewrite Hsel, Hns. cbn [andb _nodeMap _selection].
  destruct (_nodeMap c !! nodeKey self) as [n |] eqn:Hn.
  - destruct (isHorizontalRuleNode (Some n)) eqn:Hr.
    + split; [apply wellKeyed_delete, wellKeyed_detach, Hw |].
      split; [reflexivity |]. split; [| split; [| split]].
      * intros k Hk. apply elem_of_dom in Hk as [x Hx]. apply elem_of_dom.
        apply lookup_delete_Some in Hx as [Hne Hx].
        destruct (detachFromParent_lookup (nodeKey self) n (_nodeMap c) k) as [E | E];
          rewrite E in Hx; [by eexists |].
        destruct (_nodeMap c !! k); [by eexists | done].
      * intros k Hk. rewrite lookup_delete_ne by done. apply detachFromParent_lookup.
      * intros _. apply lookup_delete_eq.
      * done.
    + repeat split; try done. intros k _. by left.
  - repeat split; try done. intros k _. by left.
Qed.

(** The walk of the delete callbacks of [comps] under a Node-selection:
    every callback passes the command on; the rules of the selected
    components are gone at the end, the other keys are kept, and the
    selection has lost the keys of the selected components. *)
Lemma onDelete_chain payload comps :
  ∀ chain c,
    listener <$> chain = onDelete <$> comps →
    wellKeyed (_nodeMap c) →
    isNodeSelection (_selection c) = true →
    ∃ trace c',
      runListeners chain payload c = (Returned trace, c')
      ∧ existsb returned trace = false
      ∧ wellKeyed (_nodeMap c')
      ∧ isNodeSelection (_selection c') = true
      ∧ dom (_nodeMap c') ⊆ dom (_nodeMap c)
      ∧ selectionKeys (_selection c') ⊆ selectionKeys (_selection c)
      ∧ (∀ self, self ∈ comps → isSelected self = true →
                 isHorizontalRuleNode (_nodeMap c !! nodeKey self) = true →
                 _nodeMap c' !! nodeKey self = None)
      ∧ (∀ self, self ∈ comps → isSelected self = true →
                 nodeKey self ∉ selectionKeys (_selection c'))
      ∧ (∀ k, (∀ self, self ∈ comps → isSelected self = true →
                       isHorizontalRuleNode (_nodeMap c !! nodeKey self) = true →
                       nodeKey self ≠ k) →
              is_Some (_nodeMap c' !! k) ↔ is_Some (_nodeMap c !! k)).
Proof.
  induction comps as [| self comps IH]; intros chain c Hchain Hw Hns.
  - destruct chain; [| done]. exists [], c. cbn.
    repeat split; try done; intros ? H; by apply elem_of_nil in H.
  - destruct chain as [| r chain]; [done |]. cbn in Hchain.
    injection Hchain as Hr Hchain.
    destruct (isSelected self) eqn:Hsel.
    + destruct (onDelete_selected_step self payload c Hw Hsel Hns)
        as (c1 & Hrun & Hw1 & Hs1 & Hdom1 & Hothers & Hgone & Hsame).
      assert (Hns1 : isNodeSelection (_selection c1) = true) by (by rewrite Hs1).
      destruct (IH chain c1 Hchain Hw1 Hns1)
        as (trace & c' & Hrest & Hnone & Hw' & Hns' & Hdom' & Hkeys' & Hgone' & Hunsel'
            & Hframe').
      exists (mkInvocation (handle r) false :: trace), c'.
      cbn [runListeners]. unfold_M. rewrite Hr, Hrun, Hrest.
      split; [reflexivity |]. split; [exact Hnone |]. split; [exact Hw' |].
      split; [exact Hns' |]. split; [by etrans |].
      assert (Hclass : ∀ k, k ≠ nodeKey self →
                isHorizontalRuleNode (_nodeMap c1 !! k)
                = isHorizontalRuleNode (_nodeMap c !! k)).
      { intros k Hk. destruct (Hothers k Hk) as [-> | ->];
          [reflexivity | apply withoutChild_class]. }
      assert (Hstill : ∀ k, k ≠ nodeKey self →
                is_Some (_nodeMap c1 !! k) ↔ is_Some (_nodeMap c !! k)).
      { intros k Hk. destruct (Hothers k Hk) as [-> | ->];
          [reflexivity | apply fmap_is_Some]. }
      assert (Hstay : ∀ k, _nodeMap c1 !! k = None → _nodeMap c' !! k = None).
      { intros k Hk. apply not_elem_of_dom. intros Hin. apply Hdom' in Hin.
        by apply not_elem_of_dom in Hk. }
      split; [| split; [| split]].
      * rewrite Hs1 in Hkeys'. cbn [selectionKeys] in Hkeys'.
        intros k Hk. apply Hkeys' in Hk. apply elem_of_difference in Hk as [Hk _].
        exact Hk.
      * intros self' Hin Hsel' Hrule. apply elem_of_cons in Hin as [-> | Hin].
        -- apply Hstay, Hgone, Hrule.
        -- destruct (decide (nodeKey self' = nodeKey self)) as [E | E].
           ++ apply Hstay. rewrite E. apply Hgone. rewrite <- E. exact Hrule.
           ++ apply Hgone'; [done | done |]. by rewrite Hclass.
      * intros self' Hin Hsel'. apply elem_of_cons in Hin as [-> | Hin].
        -- intros Hk. apply Hkeys' in Hk. rewrite Hs1 in Hk. cbn [selectionKeys] in Hk.
           apply elem_of_difference in Hk as [_ Hk]. apply Hk, elem_of_singleton.
           reflexivity.
        -- by apply Hunsel'.
      * intros k Hk.
        destruct (isHorizontalRuleNode (_nodeMap c !! nodeKey self)) eqn:Hrule.
        -- assert (Hne : k ≠ nodeKey self).
           { intros ->. eapply (Hk self); [apply elem_of_cons; by left | done | done | done]. }
           rewrite <- (Hstill k Hne). apply Hframe'.
           intros self' Hin Hsel' Hrule' Ek. subst k.
           destruct (decide (nodeKey self' = nodeKey self)) as [E | E]; [done |].
           rewrite Hclass in Hrule' by done.
           eapply (Hk self'); [apply elem_of_cons; by right | done | done | done].
        -- rewrite (Hsame eq_refl) in *. apply Hframe'.
           intros self' Hin Hsel' Hrule'.
           apply (Hk self'); [apply elem_of_cons; by right | done | done].
    + assert (Hrun : onDelete self payload c = (Returned false, c)).
      { unfold onDelete. unfold_M. rewrite Hsel. reflexivity. }
      destruct (IH chain c Hchain Hw Hns)
        as (trace & c' & Hrest & Hnone & Hw' & Hns' & Hdom' & Hkeys' & Hgone' & Hunsel'
            & Hframe').
      exists (mkInvocation (handle r) false :: trace), c'.
      cbn [runListeners]. unfold_M. rewrite Hr, Hrun, Hrest.
      split; [reflexivity |]. split; [exact Hnone |]. split; [exact Hw' |].
      split; [exact Hns' |]. split; [exact Hdom' |]. split; [exact Hkeys' |].
      split; [| split].
      * intros self' Hin Hsel' Hrule. apply elem_of_cons in Hin as [-> | Hin];
          [congruence |]. by apply Hgone'.
      * intros self' Hin Hsel'. apply elem_of_cons in Hin as [-> | Hin];
          [congruence |]. by apply Hunsel'.
      * intros k Hk. apply Hframe'. intros self' Hin Hsel' Hrule'.
        apply (Hk self'); [apply elem_of_cons; by right | done | done].
Qed.

(** The mounted components of a well-keyed state: one for each
    horizontal rule, with the selection flag of its key. *)
Lemma mounted_component st self :
  wellKeyed (nodeMap st) →
  self ∈ mountedComponents st ↔
  isHorizontalRuleNode (nodeMap st !! nodeKey self) = true
  ∧ isSelected self
    = useLexicalNodeSelection.isNodeSelected (selection st) (nodeKey self).
Proof.
  intros Hw. unfold mountedComponents. rewrite list_elem_of_omap. split.
  - intros [[k n] [Hkn Hself]]. apply elem_of_map_to_list in Hkn.
    cbv beta in Hself. cbn [snd] in Hself.
    destruct (isHorizontalRuleNode (Some n)) eqn:Hr; [| done].
    injection Hself as <-. cbn [nodeKey isSelected]. unfold decorate.
    rewrite (Hw k n Hkn), Hkn. done.
  - intros [Hr Hsel]. destruct (nodeMap st !! nodeKey self) as [n |] eqn:Hn; [| done].
    exists (nodeKey self, n). split; [by apply elem_of_map_to_list |].
    cbv beta. cbn [snd]. rewrite Hr. unfold decorate. rewrite (Hw _ n Hn).
    rewrite <- Hsel. by destruct self.
Qed.

(** X14.  Delete and Backspace remove every selected horizontal rule, not
    only one: after the dispatch to the rendered editor a key holds a node
    exactly if it held one before and was not a selected rule, and no
    removed rule is selected any more. *)
Theorem delete_removes_every_selected_rule
    (editor : LexicalEditor) (type : LexicalCommand) (payload : UIEvent)
    (keys : gset NodeKey) :
  type = KEY_DELETE_COMMAND ∨ type = KEY_BACKSPACE_COMMAND →
  wellKeyed (nodeMap (_editorState editor)) →
  selection (_editorState editor) = NodeSelection keys →
  let before := _editorState editor in
  let after := _editorState (dispatchCommand (render editor) type payload) in
  let selectedRule k :=
    k ∈ keys ∧ isHorizontalRuleNode (nodeMap before !! k) = true in
  (∀ k, is_Some (nodeMap after !! k)
        ↔ is_Some (nodeMap before !! k) ∧ ¬ selectedRule k)
  ∧ (∀ k, selectedRule k →
          useLexicalNodeSelection.isNodeSelected (selection after) k = false).
Proof.
  intros Htype Hw Hs before after selectedRule.
  destruct (onDelete_chain payload (mountedComponents before)
              (listenersFor (_commands (render editor)) type) (beginUpdate editor))
    as (trace & c' & Hrun & Hnone & Hw' & Hns' & Hdom' & Hkeys' & Hgone & Hunsel & Hframe).
  { apply rendered_delete_chain, Htype. }
  { exact Hw. }
  { unfold beginUpdate. cbn [_selection]. by rewrite Hs. }
  assert (Hmounted : ∀ k, selectedRule k →
            ∃ self, self ∈ mountedComponents before ∧ isSelected self = true
                    ∧ nodeKey self = k).
  { intros k [Hin Hr]. exists (mkComponent k true). split; [| done].
    apply (mounted_component before _ Hw). cbn [nodeKey isSelected].
    split; [exact Hr |]. unfold before. rewrite Hs. cbn.
    symmetry. by apply bool_decide_eq_true_2. }
  assert (Hselected : ∀ self, self ∈ mountedComponents before → isSelected self = true →
            selectedRule (nodeKey self)).
  { intros self Hin Hsel. apply (mounted_component before _ Hw) in Hin as [Hr Hflag].
    split; [| exact Hr]. rewrite Hsel in Hflag. unfold before in Hflag.
    rewrite Hs in Hflag. cbn in Hflag. symmetry in Hflag.
    by apply bool_decide_eq_true_1 in Hflag. }
  assert (Htable : ∀ k, is_Some (_nodeMap c' !! k)
                        ↔ is_Some (nodeMap before !! k) ∧ ¬ selectedRule k).
  { intros k. split.
    - intros Hk. assert (Hnot : ¬ selectedRule k).
      { intros Hsr. destruct (Hmounted k Hsr) as (self & Hin & Hsel & <-).
        rewrite (Hgone self Hin Hsel) in Hk; [by destruct Hk |]. apply Hsr. }
      split; [| exact Hnot].
      apply (Hframe k); [| exact Hk]. intros self Hin Hsel _ <-.
      apply Hnot, Hselected; done.
    - intros [Hk Hnot]. apply (Hframe k); [| exact Hk]. intros self Hin Hsel _ <-.
      apply Hnot, Hselected; done. }
  assert (Hsel' : ∀ k, selectedRule k → k ∉ selectionKeys (_selection c')).
  { intros k Hsr. destruct (Hmounted k Hsr) as (self & Hin & Hsel & <-).
    by apply Hunsel. }
  assert (Hvalid : ∀ k, selectedRule k →
            useLexicalNodeSelection.isNodeSelected
              (validateSelection (_nodeMap c') (_selection c')) k = false).
  { intros k Hsr. unfold validateSelection.
    destruct (decide (selectionKeys (_selection c') ⊆ dom (_nodeMap c'))); [| done].
    specialize (Hsel' k Hsr). destruct (_selection c'); try done.
    cbn in *. by apply bool_decide_eq_false_2. }
  unfold after, dispatchCommand, update, triggerCommandListeners. unfold_M.
  rewrite render_begin, Hrun. unfold commit. rewrite render_state. fold before.
  destruct (decide (_dirty c' = ∅
                    ∧ validateSelection (_nodeMap c') (_selection c') = selection before))
    as [[_ Hsame] | _]; cbn [_editorState nodeMap selection].
  - assert (Hno : ∀ k, ¬ selectedRule k).
    { intros k Hsr. specialize (Hvalid k Hsr). rewrite Hsame in Hvalid.
      unfold before in Hvalid. rewrite Hs in Hvalid. cbn in Hvalid.
      apply bool_decide_eq_false_1 in Hvalid. apply Hvalid, Hsr. }
    split.
    + intros k. split; [intros Hk; split; [exact Hk | apply Hno] | by intros [Hk _]].
    + intros k Hsr. destruct (Hno k Hsr).
  - split; [exact Htable | exact Hvalid].
Qed.

End AllSelected.

Lemma delete_removes_every_selected_rule_witness :
  let before := _editorState bothSelectedEditor in
  let after := _editorState (dispatchCommand (HorizontalRuleNode.render bothSelectedEditor)
                               KEY_DELETE_COMMAND (mkEvent None false)) in
  let selectedRule k :=
    k ∈ ({[ "1"; "2" ]} : gset NodeKey)
    ∧ HorizontalRuleNode.isHorizontalRuleNode (nodeMap before !! k) = true in
  (∀ k, is_Some (nodeMap after !! k)
        ↔ is_Some (nodeMap before !! k) ∧ ¬ selectedRule k)
  ∧ (∀ k, selectedRule k →
          useLexicalNodeSelection.isNodeSelected (selection after) k = false).
Proof.
  apply (delete_removes_every_selected_rule bothSelectedEditor KEY_DELETE_COMMAND
           (mkEvent None false) {[ "1"; "2" ]}).
  - left. reflexivity.
  - exact twoRules_wellKeyed.
  - reflexivity.
Defined.

(** ** Clicks in a rendered editor *)

Section Click.

Import HorizontalRuleNode.

(** The element of a key that holds a node, and the two answers of
    [getElementByKey]. *)
Lemma getElementByKey_live editor k :
  is_Some (nodeMap (_editorState editor) !! k) → getElementByKey editor k = Some k.
Proof. intros H. unfold getElementByKey. by rewrite decide_True. Qed.

Lemma getElementByKey_cases editor k :
  getElementByKey editor k = Some k ∨ getElementByKey editor k = None.
Proof. unfold getElementByKey. destruct (decide _); [by left | by right]. Qed.

(** The click listener reads of the editor only its Editor State. *)
Lemma onClick_state ed ed' :
  _editorState ed = _editorState ed' → onClick ed = onClick ed'.
Proof. intros H. unfold onClick, getElementByKey. rewrite H. reflexivity. Qed.

(** The click listeners that the mounted components registered are their
    [onClick] callbacks, in mounting order. *)
Lemma registered_click_listeners comps editor0 :
  let editor := foldl (λ ed self, (registerListeners self ed).1) editor0 comps in
  listener <$> filter (λ r, command r = CLICK_COMMAND) (_commands editor)
  = ((listener <$> filter (λ r, command r = CLICK_COMMAND) (_commands editor0))
       ++ (onClick editor0 <$> comps))%list.
Proof.
  revert editor0. induction comps as [| self comps IH]; intros editor0; cbn [foldl].
  - simpl. by rewrite app_nil_r.
  - rewrite IH.
    rewrite (onClick_state (registerListeners self editor0).1 editor0) by reflexivity.
    cbn [fmap list_fmap]. simpl.
    rewrite !filter_app, !fmap_app, <- !app_assoc. reflexivity.
Qed.

(** The chain a click walks in a rendered editor. *)
Lemma rendered_click_chain editor :
  listener <$> listenersFor (_commands (render editor)) CLICK_COMMAND
  = onClick editor <$> mountedComponents (_editorState editor).
Proof.
  unfold render.
  set (editor0 := mkEditor _ _ [] _ _ _).
  destruct (registered_delete_listeners KEY_DELETE_COMMAND
              (mountedComponents (_editorState editor)) editor0 (or_introl eq_refl))
    as [_ Hp].
  unfold listenersFor.
  rewrite (sortByPriority_equal_priorities COMMAND_PRIORITY_LOW).
  - rewrite registered_click_listeners.
    rewrite (onClick_state editor0 editor) by reflexivity. reflexivity.
  - apply Forall_forall. intros r [_ Hr]%list_elem_of_filter.
    specialize (Hp (Forall_nil_2 _)). rewrite Forall_forall in Hp. by apply Hp.
Qed.

(** The click listener on a click elsewhere, and on a click on its own
    element. *)
Lemma onClick_elsewhere editor self event c :
  target event ≠ getElementByKey editor (nodeKey self) →
  onClick editor self event c = (Returned false, c).
Proof.
  intros Hne. unfold onClick. unfold_M.
  destruct (decide (target event = getElementByKey editor (nodeKey self))); done.
Qed.

Lemma onClick_own editor self event c :
  target event = getElementByKey editor (nodeKey self) →
  onClick editor self event c
  = (Returned true,
     withSelection
       (NodeSelection
          (let ks := if shiftKey event
                     then match _selection c with NodeSelection ks => ks | _ => ∅ end
                     else ∅ in
           if negb (isSelected self) then {[nodeKey self]} ∪ ks
           else ks ∖ {[nodeKey self]})) c).
Proof.
  intros E. unfold onClick. unfold_M.
  destruct (decide (target event = getElementByKey editor (nodeKey self)))
    as [_ | []]; [| done].
  unfold useLexicalNodeSelection.setSelected, useLexicalNodeSelection.clearSelection.
  unfold_M. destruct c as [tbl s d n eff].
  destruct (shiftKey event), s; reflexivity.
Qed.

(** A target that is the element of another key is not the element of
    this component, whether the component has an element or not. *)
Lemma other_element_is_elsewhere editor self event k :
  target event = Some k → nodeKey self ≠ k →
  target event ≠ getElementByKey editor (nodeKey self).
Proof.
  intros Htarget Hk. rewrite Htarget.
  destruct (getElementByKey_cases editor (nodeKey self)) as [-> | ->]; congruence.
Qed.

(** The listeners of the components before the clicked one pass the click
    on; the first component of the clicked key handles it. *)
Lemma onClick_chain editor event k comps :
  target event = Some k →
  getElementByKey editor k = Some k →
  ∀ chain c,
    listener <$> chain = onClick editor <$> comps →
    (∃ self, self ∈ comps ∧ nodeKey self = k) →
    ∃ trace self,
      self ∈ comps ∧ nodeKey self = k
      ∧ runListeners chain event c = (Returned trace, (onClick editor self event c).2)
      ∧ (onClick editor self event c).1 = Returned true.
Proof.
  intros Htarget Helem. induction comps as [| self comps IH]; intros chain c Hchain Hex.
  - destruct Hex as (self & Hin & _). by apply elem_of_nil in Hin.
  - destruct chain as [| r chain]; [done |]. cbn in Hchain.
    injection Hchain as Hr Hchain.
    destruct (decide (nodeKey self = k)) as [Hk | Hk].
    + exists [mkInvocation (handle r) true], self.
      split; [apply elem_of_cons; by left |]. split; [exact Hk |].
      assert (Hrun := onClick_own editor self event c).
      rewrite Hk, Helem in Hrun. specialize (Hrun Htarget).
      cbn [runListeners]. unfold_M. rewrite Hr, Hrun. done.
    + destruct (IH chain c Hchain) as (trace & self' & Hin & Hk' & Hrun & Hret).
      { destruct Hex as (self' & Hin & Hk'). exists self'. split; [| done].
        apply elem_of_cons in Hin as [-> | Hin]; done. }
      exists (mkInvocation (handle r) false :: trace), self'.
      split; [apply elem_of_cons; by right |]. split; [exact Hk' |].
      cbn [runListeners]. unfold_M. rewrite Hr.
      rewrite (onClick_elsewhere editor self event c)
        by exact (other_element_is_elsewhere editor self event k Htarget Hk).
      rewrite Hrun. done.
Qed.

(** X15.  A click on the element of a horizontal rule, dispatched to the
    rendered editor, changes no node and toggles the selection of that rule;
    any other key stays selected only if it was selected and the shift key
    was held. *)
Theorem click_on_a_rule_toggles_its_selection
    (editor : LexicalEditor) (event : UIEvent) (k : NodeKey) :
  wellKeyed (nodeMap (_editorState editor)) →
  selectionKeys (selection (_editorState editor))
    ⊆ dom (nodeMap (_editorState editor)) →
  isHorizontalRuleNode (nodeMap (_editorState editor) !! k) = true →
  target event = Some k →
  let before := _editorState editor in
  let after := _editorState (dispatchCommand (render editor) CLICK_COMMAND event) in
  nodeMap after = nodeMap before
  ∧ useLexicalNodeSelection.isNodeSelected (selection after) k
    = negb (useLexicalNodeSelection.isNodeSelected (selection before) k)
  ∧ ∀ k', k' ≠ k →
          useLexicalNodeSelection.isNodeSelected (selection after) k'
          = shiftKey event
            && useLexicalNodeSelection.isNodeSelected (selection before) k'.
Proof.
  intros Hw Hvalid Hrule Htarget before after.
  set (flag := useLexicalNodeSelection.isNodeSelected (selection before) k).
  assert (Helem : getElementByKey editor k = Some k).
  { apply getElementByKey_live.
    destruct (nodeMap (_editorState editor) !! k); [by eexists | done]. }
  destruct (onClick_chain editor event k (mountedComponents before) Htarget Helem
              (listenersFor (_commands (render editor)) CLICK_COMMAND)
              (beginUpdate editor))
    as (trace & self & Hin & Hk & Hrun & _).
  { apply rendered_click_chain. }
  { exists (mkComponent k flag). split; [| reflexivity].
    apply (mounted_component before _ Hw). done. }
  apply (mounted_component before _ Hw) in Hin as [_ Hflag].
  rewrite Hk in Hflag. fold flag in Hflag.
  rewrite onClick_own in Hrun by (by rewrite Hk, Helem).
  rewrite Hk, Hflag in Hrun. cbn [snd] in Hrun.
  set (ks := if shiftKey event
             then match _selection (beginUpdate editor) with
                  | NodeSelection ks => ks
                  | _ => ∅
                  end
             else ∅) in Hrun.
  set (keys' := if negb flag then {[k]} ∪ ks else ks ∖ {[k]}) in Hrun.
  assert (Hks : ks ⊆ dom (nodeMap before)).
  { unfold ks. destruct (shiftKey event); [| apply empty_subseteq].
    unfold beginUpdate. cbn [_selection]. fold before.
    unfold before in *. destruct (selection (_editorState editor));
      [apply empty_subseteq | exact Hvalid | apply empty_subseteq]. }
  assert (Hkeys' : keys' ⊆ dom (nodeMap before)).
  { unfold keys'. intros x Hx. destruct (negb flag).
    - apply elem_of_union in Hx as [Hx | Hx]; [| by apply Hks].
      apply elem_of_singleton in Hx as ->. apply elem_of_dom.
      unfold before. destruct (nodeMap (_editorState editor) !! k); [by eexists | done].
    - apply elem_of_difference in Hx as [Hx _]. by apply Hks. }
  assert (Hstate : nodeMap after = nodeMap before
                   ∧ selection after = NodeSelection keys').
  { unfold after, dispatchCommand, update, triggerCommandListeners. unfold_M.
    rewrite render_begin, Hrun. unfold commit. rewrite render_state. fold before.
    cbn [withSelection beginUpdate _dirty _nodeMap _selection _keyCounter].
    unfold validateSelection. cbn [selectionKeys]. fold before.
    destruct (decide (keys' ⊆ dom (nodeMap before))) as [_ | []]; [| exact Hkeys'].
    destruct (decide (∅ = ∅ ∧ NodeSelection keys' = selection before)) as [[_ E] | _];
      cbn [_editorState nodeMap selection]; done. }
  destruct Hstate as [Htbl Hsel]. split; [exact Htbl |]. rewrite Hsel.
  cbn [useLexicalNodeSelection.isNodeSelected]. unfold keys'.
  assert (Hbefore : ∀ x, useLexicalNodeSelection.isNodeSelected (selection before) x
                         = bool_decide
                             (x ∈ match selection before with
                                  | NodeSelection ks => ks
                                  | _ => ∅
                                  end)).
  { intros x. destruct (selection before); cbn; try reflexivity;
      symmetry; apply bool_decide_eq_false_2, not_elem_of_empty. }
  split.
  - apply toggled_key_selected.
  - intros k' Hk'. rewrite (toggled_key_others _ _ _ _ Hk'). unfold ks.
    destruct (shiftKey event); cbn [andb].
    + rewrite Hbefore. reflexivity.
    + apply bool_decide_eq_false_2, not_elem_of_empty.
Qed.



End Click.

Lemma click_on_a_rule_toggles_its_selection_witness :
  let event := mkEvent (Some "2") true in
  let before := _editorState oneSelectedEditor in
  let after := _editorState (dispatchCommand (HorizontalRuleNode.render oneSelectedEditor)
                               CLICK_COMMAND event) in
  nodeMap after = nodeMap before
  ∧ useLexicalNodeSelection.isNodeSelected (selection after) "2"
    = negb (useLexicalNodeSelection.isNodeSelected (selection before) "2")
  ∧ ∀ k', k' ≠ "2" →
          useLexicalNodeSelection.isNodeSelected (selection after) k'
          = shiftKey event
            && useLexicalNodeSelection.isNodeSelected (selection before) k'.
Proof.
  apply (click_on_a_rule_toggles_its_selection oneSelectedEditor (mkEvent (Some "2") true)
           "2").
  - exact twoRules_wellKeyed.
  - apply (bool_decide_unpack _). vm_compute. reflexivity.
  - reflexivity.
  - reflexivity.
Defined.


(** ** The DOM elements of the node classes *)

(** X17.  The DOM element of an overflow node is a [span] without
    children, the same for every overflow node.  It carries a [class]
    attribute exactly when the theme names a class for the character
    limit, with that class as its value, and no other attribute: a theme
    without the entry gives an element without a class. *)
Theorem overflow_dom_is_a_span_classed_by_the_theme
    (this : LexicalNode) (config : RenderConfig) :
  nodeName (OverflowNode.createDOM this config) = "span"
  ∧ getChildNodes (OverflowNode.createDOM this config) = []
  ∧ textContent (OverflowNode.createDOM this config) = Some ""
  ∧ (∀ name, getAttribute name (OverflowNode.createDOM this config)
             = if decide (name = "class") then characterLimit (theme config) else None)
  ∧ (∀ other, OverflowNode.createDOM other config = OverflowNode.createDOM this config).
Proof.
  unfold OverflowNode.createDOM, set_className, createElement.
  destruct (characterLimit (theme config)) as [className |]; cbn.
  - repeat split. intros name. destruct (decide (name = "class")) as [-> | Hne].
    + apply lookup_insert_eq.
    + rewrite lookup_insert_ne by done. apply lookup_empty.
  - repeat split. intros name. rewrite lookup_empty. by destruct (decide _).
Qed.


